(** * pi-stuff, [extensions/pr-track]: status classification and the CI bar

    A shallow embedding of the pure part of the pull-request tracker:
    [ciProgressFromChecks], [ciProgressFromRecord], [reviewFromDecision],
    [mergeFromState], [normalizePr] and the slot computation of [ciBadge]
    (inside [renderWidget]), followed by the properties the specification
    states about them.  Further on come the rest of the tracker that
    computes without the host ([shortTitle], [upsertPr], the filter of
    [/pr-untrack], [restoreState], [renderWidget]) and, from the Kernel
    extension, [formatAge], [parseDurationToMs], the selection a prune
    makes and the status line of [updateWidget], each with the properties
    its code shows.

    Modelling conventions.
    - Counters and slot counts only ever hold integers; they are [Z].
    - An optional field ([status?: string], [conclusion?: string | null],
      [isDraft?: boolean], ...) is an [option]; [null] and [undefined] are
      both [None].
    - Strings are [string]; [toUpperCase] maps the ASCII letters a-z and
      leaves every other byte alone: the keywords compared against are all
      ASCII, and the case mappings of Unicode beyond ASCII are not
      modelled.  The proofs use of [toUpperCase] only that its result is
      empty exactly when its argument is.
    - The three proportional shares [(count / total) * width] are the only
      fractional numbers of the program.  The operations applied to them are
      gathered in the class [Arith], instantiated with exact rationals
      ([Q], the arithmetic the specification speaks in) and with binary64
      floating point ([float], what a JavaScript engine computes).  What
      does not depend on rounding is proved for every instance.
    - The length of a string and the positions [slice] counts are those
      of the [string] (bytes), which are JavaScript's code units for ASCII
      text; [trim] and [toLowerCase] likewise know the ASCII white space
      and letters.
    - [Date.now()] is an argument [now]; the parsing of a date
      ([new Date(s).getTime()]) is a parameter of the definitions that need
      it, [None] standing for an invalid date.
    - [ciBadge] fixes [const width = 7]; its slot computation is written
      over the name [width] and is embedded with the width as a parameter,
      as the specification's [allocate(progress, width)] has it. *)

From Stdlib Require Import ZArith List Bool Lia.
From Stdlib Require Import Strings.String Strings.Ascii.
From Stdlib Require Import Numbers.DecimalString Numbers.DecimalPos.
From Stdlib Require Import QArith Qround Lqa.
From Stdlib Require Import Sorting.Permutation.
From Stdlib Require Import Floats.PrimFloat Floats.SpecFloat Floats.FloatOps Floats.FloatAxioms.
From Stdlib Require Import Numbers.Cyclic.Int63.Uint63.
From Equations Require Import Equations.
Import ListNotations.

Open Scope string_scope.
Open Scope Z_scope.

(* ===================================================================== *)
(** * Data model *)
(* ===================================================================== *)

(** [type CiStatus = "pass" | "fail" | "pending" | "none" | "unknown"]. *)
Inductive CiStatus := ci_pass | ci_fail | ci_pending | ci_none | ci_unknown.

(** [type ReviewStatus = "approved" | "changes" | "pending" | "unknown"]. *)
Inductive ReviewStatus := rv_approved | rv_changes | rv_pending | rv_unknown.

(** [type MergeStatus = "merged" | "open" | "closed" | "draft" | "unknown"]. *)
Inductive MergeStatus := mg_merged | mg_open | mg_closed | mg_draft | mg_unknown.

Record CiProgress := {
  total : Z;
  passed : Z;
  failed : Z;
  pending : Z;
  status : CiStatus
}.

(** One element of [GhPrView["statusCheckRollup"]]. *)
Record Check := {
  check_status : option string;
  check_conclusion : option string
}.

Record GhPrView := {
  gh_number : Z;
  gh_title : string;
  gh_url : string;
  gh_headRefName : option string;
  gh_state : option string;
  gh_isDraft : option bool;
  gh_mergedAt : option string;
  gh_reviewDecision : option string;
  gh_statusCheckRollup : option (list Check)
}.

Record PrRecord := {
  pr_number : Z;
  pr_url : string;
  pr_title : string;
  pr_headRefName : option string;
  pr_state : option string;
  pr_isDraft : option bool;
  pr_mergedAt : option string;
  pr_reviewDecision : option string;
  pr_ci : CiStatus;
  pr_ciProgress : option CiProgress;
  pr_review : ReviewStatus;
  pr_merge : MergeStatus;
  pr_lastCheckedAt : option string;
  pr_error : option string
}.

(* ===================================================================== *)
(** * JavaScript string helpers *)
(* ===================================================================== *)

Definition upper_ascii (c : ascii) : ascii :=
  let n := nat_of_ascii c in
  if (97 <=? n)%nat && (n <=? 122)%nat then ascii_of_nat (n - 32) else c.

Fixpoint toUpperCase (s : string) : string :=
  match s with
  | EmptyString => EmptyString
  | String c rest => String (upper_ascii c) (toUpperCase rest)
  end.

(** [x || ""] for an optional string. *)
Definition orEmpty (x : option string) : string :=
  match x with
  | Some s => s
  | None => ""
  end.

(** Truthiness of a string: every string but the empty one. *)
Definition truthy (s : string) : bool :=
  match s with
  | EmptyString => false
  | String _ _ => true
  end.

(** Truthiness of an optional string ([pr.mergedAt]): present and not
    empty. *)
Definition truthy_opt (x : option string) : bool := truthy (orEmpty x).

(** Truthiness of an optional boolean ([pr.isDraft]). *)
Definition truthy_flag (x : option bool) : bool :=
  match x with
  | Some b => b
  | None => false
  end.

(** [list.includes(s)] on an array of strings. *)
Definition includes (l : list string) (s : string) : bool :=
  existsb (String.eqb s) l.

(* ===================================================================== *)
(** * ciProgressFromChecks *)
(* ===================================================================== *)

(** The three [let] counters of the loop. *)
Record Counters := {
  n_passed : Z;
  n_failed : Z;
  n_pending : Z
}.

Definition counters_sum (c : Counters) : Z := n_passed c + n_failed c + n_pending c.

Definition FAILED_CONCLUSIONS : list string :=
  ["FAILURE"; "TIMED_OUT"; "CANCELLED"; "ACTION_REQUIRED"; "STARTUP_FAILURE"; "ERROR"].

Definition PASSED_CONCLUSIONS : list string :=
  ["SUCCESS"; "NEUTRAL"; "SKIPPED"].

Definition add_passed (c : Counters) : Counters :=
  {| n_passed := n_passed c + 1; n_failed := n_failed c; n_pending := n_pending c |}.

Definition add_failed (c : Counters) : Counters :=
  {| n_passed := n_passed c; n_failed := n_failed c + 1; n_pending := n_pending c |}.

Definition add_pending (c : Counters) : Counters :=
  {| n_passed := n_passed c; n_failed := n_failed c; n_pending := n_pending c + 1 |}.

(** [const isCompleted = status === "COMPLETED" || (!status && Boolean(conclusion))],
    on the upper-cased fields. *)
Definition isCompleted (check : Check) : bool :=
  let status := toUpperCase (orEmpty (check_status check)) in
  let conclusion := toUpperCase (orEmpty (check_conclusion check)) in
  String.eqb status "COMPLETED" || (negb (truthy status) && truthy conclusion).

(** One iteration of [for (const check of checks)]; every [continue] is the
    end of a branch. *)
Definition count_check (c : Counters) (check : Check) : Counters :=
  let conclusion := toUpperCase (orEmpty (check_conclusion check)) in
  if negb (isCompleted check) then add_pending c
  else if includes FAILED_CONCLUSIONS conclusion then add_failed c
  else if negb (truthy conclusion) then add_pending c
  else if includes PASSED_CONCLUSIONS conclusion then add_passed c
  else add_failed c.

Definition no_checks : CiProgress :=
  {| total := 0; passed := 0; failed := 0; pending := 0; status := ci_none |}.

Definition progress_of_counters (c : Counters) : CiProgress :=
  {| total := n_passed c + n_failed c + n_pending c;
     passed := n_passed c;
     failed := n_failed c;
     pending := n_pending c;
     status := if n_failed c >? 0 then ci_fail
               else if n_pending c >? 0 then ci_pending
               else ci_pass |}.

Definition ciProgressFromChecks (checks : option (list Check)) : CiProgress :=
  match checks with
  | None => no_checks
  | Some [] => no_checks
  | Some l =>
      progress_of_counters
        (fold_left count_check l {| n_passed := 0; n_failed := 0; n_pending := 0 |})
  end.

(* ===================================================================== *)
(** * ciProgressFromRecord, reviewFromDecision, mergeFromState, normalizePr *)
(* ===================================================================== *)

Definition ciProgressFromRecord (pr : PrRecord) : CiProgress :=
  match pr_ciProgress pr with
  | Some p => p
  | None =>
      match pr_ci pr with
      | ci_pass => {| total := 1; passed := 1; failed := 0; pending := 0; status := ci_pass |}
      | ci_fail => {| total := 1; passed := 0; failed := 1; pending := 0; status := ci_fail |}
      | ci_pending => {| total := 1; passed := 0; failed := 0; pending := 1; status := ci_pending |}
      | ci_none => {| total := 0; passed := 0; failed := 0; pending := 0; status := ci_none |}
      | ci_unknown => {| total := 0; passed := 0; failed := 0; pending := 0; status := ci_unknown |}
      end
  end.

Definition is_merged (m : option MergeStatus) : bool :=
  match m with
  | Some mg_merged => true
  | _ => false
  end.

Definition reviewFromDecision (decision : option string) (merge : option MergeStatus)
  : ReviewStatus :=
  if is_merged merge then rv_approved
  else
    let value := toUpperCase (orEmpty decision) in
    if String.eqb value "APPROVED" then rv_approved
    else if String.eqb value "CHANGES_REQUESTED" then rv_changes
    else if String.eqb value "REVIEW_REQUIRED" then rv_pending
    else rv_unknown.

Definition mergeFromState (pr : GhPrView) : MergeStatus :=
  if truthy_opt (gh_mergedAt pr)
     || String.eqb (toUpperCase (orEmpty (gh_state pr))) "MERGED"
  then mg_merged
  else if truthy_flag (gh_isDraft pr) then mg_draft
  else
    let state := toUpperCase (orEmpty (gh_state pr)) in
    if String.eqb state "OPEN" then mg_open
    else if String.eqb state "CLOSED" then mg_closed
    else mg_unknown.

(** [normalizePr]; [now] stands for [new Date().toISOString()]. *)
Definition normalizePr (now : string) (data : GhPrView) : PrRecord :=
  let merge := mergeFromState data in
  let ciProgress := ciProgressFromChecks (gh_statusCheckRollup data) in
  {| pr_number := gh_number data;
     pr_url := gh_url data;
     pr_title := gh_title data;
     pr_headRefName := gh_headRefName data;
     pr_state := gh_state data;
     pr_isDraft := gh_isDraft data;
     pr_mergedAt := gh_mergedAt data;
     pr_reviewDecision := gh_reviewDecision data;
     pr_ci := status ciProgress;
     pr_ciProgress := Some ciProgress;
     pr_review := reviewFromDecision (gh_reviewDecision data) (Some merge);
     pr_merge := merge;
     pr_lastCheckedAt := Some now;
     pr_error := None |}.

(* ===================================================================== *)
(** * Arithmetic of the proportional shares *)
(* ===================================================================== *)

(** What [ciBadge] does with fractional numbers: it converts an integer,
    divides, multiplies, subtracts, takes [Math.floor], and (in the sort
    comparator) looks at the sign of a difference. *)
Class Arith (T : Type) := {
  num_of_Z : Z -> T;
  num_div : T -> T -> T;
  num_mul : T -> T -> T;
  num_sub : T -> T -> T;
  num_floor : T -> Z;
  num_sign : T -> comparison
}.

(** Exact rational arithmetic. *)
#[export] Instance Arith_Q : Arith Q := {
  num_of_Z := inject_Z;
  num_div := Qdiv;
  num_mul := Qmult;
  num_sub := Qminus;
  num_floor := Qfloor;
  num_sign := fun q => Qcompare q 0
}.

(** Binary64, on Rocq's primitive floats.  The conversion from [Z] is exact
    below 2^53; [Math.floor] is read off the mantissa and exponent.  The
    values that are not finite do not arise from non-negative counters and
    a non-zero total; they are sent to 0 (by [float_floor]) and to "equal"
    (by [float_sign], as a sort does with a NaN comparator result). *)
Definition float_of_Z (z : Z) : float :=
  if z <? 0 then PrimFloat.opp (PrimFloat.of_uint63 (Uint63.of_Z (- z)))
  else PrimFloat.of_uint63 (Uint63.of_Z z).

Definition float_floor (x : float) : Z :=
  match Prim2SF x with
  | S754_finite false m e => Z.shiftl (Zpos m) e
  | S754_finite true m e => Z.shiftl (Zneg m) e
  | _ => 0
  end.

Definition float_sign (x : float) : comparison :=
  match PrimFloat.compare x PrimFloat.zero with
  | FLt => Lt
  | FGt => Gt
  | FEq => Eq
  | FNotComparable => Eq
  end.

#[export] Instance Arith_float : Arith float := {
  num_of_Z := float_of_Z;
  num_div := PrimFloat.div;
  num_mul := PrimFloat.mul;
  num_sub := PrimFloat.sub;
  num_floor := float_floor;
  num_sign := float_sign
}.

(* ===================================================================== *)
(** * Array.prototype.sort *)
(* ===================================================================== *)

(** [sort] is stable (ECMAScript 2019).  [cmp a b] is the sign of the
    comparator's result: [Lt] puts [a] first, [Gt] puts [b] first, [Eq]
    keeps the order the two had.  For a comparator that is a total
    preorder every stable sort returns this list. *)
Fixpoint insert {A : Type} (cmp : A -> A -> comparison) (x : A) (l : list A) : list A :=
  match l with
  | [] => [x]
  | y :: rest =>
      match cmp x y with
      | Gt => y :: insert cmp x rest
      | _ => x :: y :: rest
      end
  end.

Definition sort {A : Type} (cmp : A -> A -> comparison) (l : list A) : list A :=
  fold_right (insert cmp) [] l.

(* ===================================================================== *)
(** * The slot computation of ciBadge *)
(* ===================================================================== *)

(** The keys ["pass" | "fail" | "pending"] of the fraction list and of
    [borrowSlot]'s target. *)
Inductive Key := k_pass | k_fail | k_pending.

(** The three [let] variables [passSlots], [failSlots], [pendingSlots]. *)
Record BarAllocation := {
  passSlots : Z;
  failSlots : Z;
  pendingSlots : Z
}.

Definition slots_sum (s : BarAllocation) : Z :=
  passSlots s + failSlots s + pendingSlots s.

Definition slot (k : Key) (s : BarAllocation) : Z :=
  match k with
  | k_pass => passSlots s
  | k_fail => failSlots s
  | k_pending => pendingSlots s
  end.

(** The raw count of a category. *)
Definition raw (k : Key) (progress : CiProgress) : Z :=
  match k with
  | k_pass => passed progress
  | k_fail => failed progress
  | k_pending => pending progress
  end.

(** [xSlots += d] for the variable named by [k]. *)
Definition add_slot (k : Key) (d : Z) (s : BarAllocation) : BarAllocation :=
  match k with
  | k_pass =>
      {| passSlots := passSlots s + d; failSlots := failSlots s; pendingSlots := pendingSlots s |}
  | k_fail =>
      {| passSlots := passSlots s; failSlots := failSlots s + d; pendingSlots := pendingSlots s |}
  | k_pending =>
      {| passSlots := passSlots s; failSlots := failSlots s; pendingSlots := pendingSlots s + d |}
  end.

Record Fraction (T : Type) := {
  key : Key;
  frac : T
}.
Arguments key {T} _.
Arguments frac {T} _.

Section Shares.

Context {T : Type} `{Arith T}.

(** [(count / progress.total) * width]. *)
Definition share (count total_ width : Z) : T :=
  num_mul (num_div (num_of_Z count) (num_of_Z total_)) (num_of_Z width).

(** The three [Math.floor] initialisers. *)
Definition floors (progress : CiProgress) (width : Z) : BarAllocation :=
  {| passSlots := num_floor (share (passed progress) (total progress) width);
     failSlots := num_floor (share (failed progress) (total progress) width);
     pendingSlots := num_floor (share (pending progress) (total progress) width) |}.

(** The fractional part kept for category [k]:
    [(count / total) * width - kSlots]. *)
Definition frac_of (progress : CiProgress) (width : Z) (k : Key) : T :=
  num_sub (share (raw k progress) (total progress) width)
          (num_of_Z (slot k (floors progress width))).

(** The comparator [(a, b) => b.frac - a.frac], by its sign. *)
Definition by_frac_desc (a b : Fraction T) : comparison :=
  num_sign (num_sub (frac b) (frac a)).

(** One entry [{ key, frac }] of the array literal. *)
Definition fraction (progress : CiProgress) (width : Z) (k : Key) : Fraction T :=
  {| key := k; frac := frac_of progress width k |}.

(** [const fractions = [pass, fail, pending].sort(...)]. *)
Definition fractions (progress : CiProgress) (width : Z) : list (Fraction T) :=
  sort by_frac_desc
    [ fraction progress width k_pass;
      fraction progress width k_fail;
      fraction progress width k_pending ].

(** [for (const item of fractions) { if (used >= width) break; ...; used += 1 }]. *)
Fixpoint distribute (items : list (Fraction T)) (width : Z)
         (s : BarAllocation) (used : Z) : BarAllocation :=
  match items with
  | [] => s
  | item :: rest =>
      if used >=? width then s
      else distribute rest width (add_slot (key item) 1 s) (used + 1)
  end.

(** The slots once the leftover has been handed out. *)
Definition distributed (progress : CiProgress) (width : Z) : BarAllocation :=
  let s := floors progress width in
  distribute (fractions progress width) width s (slots_sum s).

End Shares.

(** The closure [borrowSlot(target)]: of its three [if] statements only the
    one of [target] can fire. *)
Definition borrowSlot (progress : CiProgress) (target : Key) (s : BarAllocation)
  : BarAllocation :=
  match target with
  | k_fail =>
      if (failed progress >? 0) && (failSlots s =? 0) then
        add_slot k_fail 1
          (if pendingSlots s >? 1 then add_slot k_pending (-1) s
           else if passSlots s >? 1 then add_slot k_pass (-1) s
           else if pendingSlots s >? 0 then add_slot k_pending (-1) s
           else if passSlots s >? 0 then add_slot k_pass (-1) s
           else s)
      else s
  | k_pending =>
      if (pending progress >? 0) && (pendingSlots s =? 0) then
        add_slot k_pending 1
          (if passSlots s >? 1 then add_slot k_pass (-1) s
           else if failSlots s >? 1 then add_slot k_fail (-1) s
           else if passSlots s >? 0 then add_slot k_pass (-1) s
           else if failSlots s >? 0 then add_slot k_fail (-1) s
           else s)
      else s
  | k_pass =>
      if (passed progress >? 0) && (passSlots s =? 0) then
        add_slot k_pass 1
          (if pendingSlots s >? 1 then add_slot k_pending (-1) s
           else if failSlots s >? 1 then add_slot k_fail (-1) s
           else if pendingSlots s >? 0 then add_slot k_pending (-1) s
           else if failSlots s >? 0 then add_slot k_fail (-1) s
           else s)
      else s
  end.

(** [borrowSlot("fail"); borrowSlot("pending"); borrowSlot("pass");]. *)
Definition borrowAll (progress : CiProgress) (s : BarAllocation) : BarAllocation :=
  borrowSlot progress k_pass (borrowSlot progress k_pending (borrowSlot progress k_fail s)).

(** [while (passSlots + failSlots + pendingSlots > width) { ... else break; }]. *)
Equations? shrink (width : Z) (s : BarAllocation) : BarAllocation
  by wf (Z.to_nat (slots_sum s - width)) lt :=
  shrink width s with Z_gt_dec (slots_sum s) width => {
    | right _ => s
    | left _ with Z_gt_dec (pendingSlots s) 1 => {
      | left _ => shrink width (add_slot k_pending (-1) s)
      | right _ with Z_gt_dec (passSlots s) 1 => {
        | left _ => shrink width (add_slot k_pass (-1) s)
        | right _ with Z_gt_dec (failSlots s) 1 => {
          | left _ => shrink width (add_slot k_fail (-1) s)
          | right _ => s } } } }.
Proof.
  all: unfold slots_sum in *; simpl; lia.
Defined.

(** [while (passSlots + failSlots + pendingSlots < width) { ... }]. *)
Equations? grow (progress : CiProgress) (width : Z) (s : BarAllocation) : BarAllocation
  by wf (Z.to_nat (width - slots_sum s)) lt :=
  grow progress width s with Z_lt_dec (slots_sum s) width => {
    | right _ => s
    | left _ =>
        grow progress width
          (if pending progress >? 0 then add_slot k_pending 1 s
           else if passed progress >? 0 then add_slot k_pass 1 s
           else add_slot k_fail 1 s) }.
Proof.
  unfold slots_sum in *.
  destruct (pending progress >? 0); [|destruct (passed progress >? 0)]; simpl; lia.
Defined.

(** What the badge shows in place of the bar. *)
Inductive BadgeBar :=
| NoChecks
| Bar (s : BarAllocation).

Section Badge.

Context {T : Type} `{Arith T}.

(** The slot variables from their initialisation to the end of the two
    [while] loops. *)
Definition barSlots (progress : CiProgress) (width : Z) : BarAllocation :=
  grow progress width (shrink width (borrowAll progress (distributed progress width))).

(** [ciBadge] up to the point where the bar string is built; the early
    [return] of [progress.total === 0] comes before any slot variable
    exists. *)
Definition ciBadgeBar (progress : CiProgress) (width : Z) : BadgeBar :=
  if total progress =? 0 then NoChecks else Bar (barSlots progress width).

(** The allocation as the specification names it: the number of glyphs
    drawn per category, none at all for the "no checks" badge. *)
Definition allocate (progress : CiProgress) (width : Z) : BarAllocation :=
  match ciBadgeBar progress width with
  | NoChecks => {| passSlots := 0; failSlots := 0; pendingSlots := 0 |}
  | Bar s => s
  end.

End Badge.

(* ===================================================================== *)
(** * The rendered badge *)
(* ===================================================================== *)

(** [s.repeat(n)]. *)
Fixpoint repeat_nat (s : string) (n : nat) : string :=
  match n with
  | O => ""
  | S n' => s ++ repeat_nat s n'
  end.

Definition repeat_string (s : string) (n : Z) : string := repeat_nat s (Z.to_nat n).

(** An integer inside a template literal. *)
Definition number_to_string (n : Z) : string := NilZero.string_of_int (Z.to_int n).

(** [const width = 7]. *)
Definition badge_width : Z := 7.

Section Render.

Context {T : Type} `{Arith T}.

(** The theme's [t.fg(color, text)] belongs to the host. *)
Variable fg : string -> string -> string.

Definition ciBadge (pr : PrRecord) : string :=
  let progress := ciProgressFromRecord pr in
  match ciBadgeBar progress badge_width with
  | NoChecks => fg "dim" "CI:[-------]" ++ " " ++ fg "dim" "no checks"
  | Bar s =>
      let bar :=
        fg "dim" "CI:[" ++ fg "success" (repeat_string "=" (passSlots s))
        ++ fg "error" (repeat_string "!" (failSlots s))
        ++ fg "warning" (repeat_string "~" (pendingSlots s))
        ++ fg "dim" "]" in
      if failed progress >? 0 then
        let detail :=
          number_to_string (passed progress) ++ "/"
          ++ number_to_string (total progress) ++ " +"
          ++ number_to_string (failed progress) ++ " fail"
          ++ (if failed progress =? 1 then "" else "s")
          ++ (if pending progress >? 0
              then " (" ++ number_to_string (pending progress) ++ " waiting)"
              else "") in
        bar ++ " " ++ fg "error" detail
      else if pending progress >? 0 then
        bar ++ " "
        ++ fg "warning" (number_to_string (passed progress) ++ "/"
                         ++ number_to_string (total progress)
                         ++ " waiting (" ++ number_to_string (pending progress) ++ ")")
      else
        bar ++ " "
        ++ fg "success" (number_to_string (passed progress) ++ "/"
                         ++ number_to_string (total progress) ++ " pass")
  end.

End Render.

(* ===================================================================== *)
(** * Vocabulary of the specification *)
(* ===================================================================== *)

(** A progress tally: non-negative counters, [total] their sum. *)
Definition valid_progress (p : CiProgress) : Prop :=
  0 <= passed p /\ 0 <= failed p /\ 0 <= pending p
  /\ total p = passed p + failed p + pending p.

(** The status the specification derives from the counters: "fail if
    failed > 0; else pending if pending > 0; else pass if total > 0; else
    none". *)
Definition derived_status (p : CiProgress) : CiStatus :=
  if failed p >? 0 then ci_fail
  else if pending p >? 0 then ci_pending
  else if total p >? 0 then ci_pass
  else ci_none.

(** The number of categories with a non-zero raw count. *)
Definition nonzero_categories (p : CiProgress) : Z :=
  (if passed p >? 0 then 1 else 0)
  + (if failed p >? 0 then 1 else 0)
  + (if pending p >? 0 then 1 else 0).

Definition nonneg_slots (s : BarAllocation) : Prop :=
  0 <= passSlots s /\ 0 <= failSlots s /\ 0 <= pendingSlots s.

(** The place of a key in the literal [[pass, fail, pending]] that is
    sorted. *)
Definition rank (k : Key) : Z :=
  match k with
  | k_pass => 0
  | k_fail => 1
  | k_pending => 2
  end.

(** [a] stands somewhere before [b] in [l]. *)
Definition precedes {A : Type} (a b : A) (l : list A) : Prop :=
  exists l1 l2 l3, l = (l1 ++ a :: l2 ++ b :: l3)%list.

(** The comparator finds the remainders of [a] and [b] equal. *)
Definition ties {T : Type} `{Arith T} (progress : CiProgress) (width : Z) (a b : Key) : Prop :=
  by_frac_desc (fraction progress width a) (fraction progress width b) = Eq.

(** The entries of a sorted fraction list run from the largest remainder
    to the smallest. *)
Fixpoint descending (l : list (Fraction Q)) : Prop :=
  match l with
  | x :: (y :: _) as rest => (frac y <= frac x)%Q /\ descending rest
  | _ => True
  end.

(** A binary64 value that is not negative: its sign bit is clear, or it is
    a NaN. *)
Definition sign_clear (x : spec_float) : Prop :=
  match x with
  | S754_zero s => s = false
  | S754_infinity s => s = false
  | S754_finite s _ _ => s = false
  | S754_nan => True
  end.

(** A theme that leaves the text as it is. *)
Definition plain : string -> string -> string := fun _ text => text.

Definition tally (t p f n : Z) : CiProgress :=
  {| total := t; passed := p; failed := f; pending := n;
     status := derived_status
                 {| total := t; passed := p; failed := f; pending := n; status := ci_none |} |}.

Definition slots (a b c : Z) : BarAllocation :=
  {| passSlots := a; failSlots := b; pendingSlots := c |}.

Definition bare_record (ci : CiStatus) (p : option CiProgress) : PrRecord :=
  {| pr_number := 1; pr_url := ""; pr_title := ""; pr_headRefName := None;
     pr_state := None; pr_isDraft := None; pr_mergedAt := None;
     pr_reviewDecision := None; pr_ci := ci; pr_ciProgress := p;
     pr_review := rv_unknown; pr_merge := mg_unknown;
     pr_lastCheckedAt := None; pr_error := None |}.

Definition view (state : option string) (draft : option bool) (mergedAt : option string)
  : GhPrView :=
  {| gh_number := 1; gh_title := ""; gh_url := ""; gh_headRefName := None;
     gh_state := state; gh_isDraft := draft; gh_mergedAt := mergedAt;
     gh_reviewDecision := None; gh_statusCheckRollup := None |}.

Definition check (st co : option string) : Check :=
  {| check_status := st; check_conclusion := co |}.

(* ===================================================================== *)
(** * The tracked list: shortTitle, upsertPr, restoreState *)
(* ===================================================================== *)

(** [s.slice(0, end)]: a negative [end] counts from the end of the string,
    and the result never runs past it. *)
Definition slice_to (s : string) (end_ : Z) : string :=
  let len := Z.of_nat (String.length s) in
  let stop := if end_ <? 0 then Z.max (len + end_) 0 else Z.min end_ len in
  substring 0 (Z.to_nat stop) s.

(** [shortTitle(title, max = 40)]. *)
Definition shortTitle (title : string) (max : Z) : string :=
  if Z.of_nat (String.length title) <=? max then title
  else slice_to title (max - 3) ++ "...".

(** The default of the parameter [max]. *)
Definition SHORT_TITLE_MAX : Z := 40.

(** [const MAX_TRACKED_PRS = 12]. *)
Definition MAX_TRACKED_PRS : nat := 12.

(** [upsertPr]: [filter], spread into a new array, [slice(0, MAX_TRACKED_PRS)]. *)
Definition upsertPr (prs : list PrRecord) (next : PrRecord) : list PrRecord :=
  let without := filter (fun p => negb (pr_number p =? pr_number next)) prs in
  firstn MAX_TRACKED_PRS (next :: without).

(** The handler of [/pr-untrack <number>]: the list it leaves and whether
    it found the number ([trackedPrs.length === before] is the failure). *)
Definition untrackPr (prs : list PrRecord) (num : Z) : list PrRecord * bool :=
  let kept := filter (fun p => negb (pr_number p =? num)) prs in
  (kept, negb (Nat.eqb (List.length kept) (List.length prs))).

(** [type TrackerState = { prs: PrRecord[] }], with the field as
    [restoreState] tests it ([entry.data?.prs]). *)
Record TrackerState := {
  state_prs : option (list PrRecord)
}.

(** A session entry as [restoreState] reads it. *)
Record Entry := {
  entry_type : string;
  entry_customType : option string;
  entry_data : option TrackerState
}.

(** [const STATE_ENTRY = "pr-tracker-state"]. *)
Definition STATE_ENTRY : string := "pr-tracker-state".

(** [entry.data?.prs]. *)
Definition entry_prs (e : Entry) : option (list PrRecord) :=
  match entry_data e with
  | Some d => state_prs d
  | None => None
  end.

(** The test of the loop body; an array is truthy, the empty one too. *)
Definition is_state_entry (e : Entry) : bool :=
  String.eqb (entry_type e) "custom"
  && match entry_customType e with
     | Some c => String.eqb c STATE_ENTRY
     | None => false
     end
  && match entry_prs e with
     | Some _ => true
     | None => false
     end.

(** [for (let i = entries.length - 1; i >= 0; i--)], on the entries from
    the last to the first. *)
Fixpoint restore_scan (backwards : list Entry) : list PrRecord :=
  match backwards with
  | [] => []
  | e :: earlier =>
      if is_state_entry e then
        match entry_prs e with
        | Some prs => prs
        | None => []
        end
      else restore_scan earlier
  end.

Definition restoreState (entries : list Entry) : list PrRecord :=
  restore_scan (rev entries).

(* ===================================================================== *)
(** * The widget of the tracker *)
(* ===================================================================== *)

Definition reviewBadge (fg : string -> string -> string) (review : ReviewStatus) : string :=
  match review with
  | rv_approved => fg "success" "RV:✓"
  | rv_changes => fg "error" "RV:✗"
  | rv_pending => fg "warning" "RV:…"
  | rv_unknown => fg "dim" "RV:?"
  end.

Definition mergeBadge (fg : string -> string -> string) (merge : MergeStatus) : string :=
  match merge with
  | mg_merged => fg "success" "MG:✓"
  | mg_open => fg "accent" "MG:○"
  | mg_closed => fg "dim" "MG:×"
  | mg_draft => fg "warning" "MG:D"
  | mg_unknown => fg "dim" "MG:?"
  end.

(** What [renderWidget] hands to [ctx.ui.setWidget] and [ctx.ui.setStatus];
    [None] is [undefined], which clears the widget or the status. *)
Record Rendered := {
  widget_lines : option (list string);
  status_line : option string
}.

Definition is_open_or_draft (p : PrRecord) : bool :=
  match pr_merge p with
  | mg_open => true
  | mg_draft => true
  | _ => false
  end.

Definition is_failing (p : PrRecord) : bool :=
  match pr_ci p with
  | ci_fail => true
  | _ => false
  end.

Definition count_nat (n : nat) : string := number_to_string (Z.of_nat n).

Section Widget.

Context {T : Type} `{Arith T}.

Variable fg : string -> string -> string.

(** One line of the widget. *)
Definition widget_line (pr : PrRecord) : string :=
  let prRef := fg "accent" ("#" ++ number_to_string (pr_number pr)) in
  let title :=
    match pr_merge pr with
    | mg_merged => fg "muted" (shortTitle (pr_title pr) SHORT_TITLE_MAX)
    | _ => fg "text" (shortTitle (pr_title pr) SHORT_TITLE_MAX)
    end in
  prRef ++ " " ++ title ++ "  " ++ ciBadge fg pr ++ " "
  ++ reviewBadge fg (pr_review pr) ++ " " ++ mergeBadge fg (pr_merge pr).

Definition renderWidget (hasUI : bool) (prs : list PrRecord) : Rendered :=
  if negb hasUI || Nat.eqb (List.length prs) 0 then
    {| widget_lines := None; status_line := None |}
  else
    let header := fg "accent" ("PR Tracker (" ++ count_nat (List.length prs) ++ ")") in
    let lines := header :: map widget_line (firstn MAX_TRACKED_PRS prs) in
    let openCount := List.length (filter is_open_or_draft prs) in
    let failing := List.length (filter is_failing prs) in
    {| widget_lines := Some lines;
       status_line :=
         Some (fg "dim"
                 ("prs " ++ count_nat (List.length prs) ++ " · open " ++ count_nat openCount
                  ++ (if (0 <? failing)%nat then " · failing " ++ count_nat failing else ""))) |}.

End Widget.

(* ===================================================================== *)
(** * The Kernel extension: formatAge, parseDurationToMs, prune *)
(* ===================================================================== *)

(** [formatAge(ms)], on a whole number of milliseconds. *)
Definition formatAge (ms : Z) : string :=
  let sec := Z.max 0 (ms / 1000) in
  if sec <? 60 then number_to_string sec ++ "s"
  else
    let min := sec / 60 in
    if min <? 60 then number_to_string min ++ "m"
    else
      let hr := min / 60 in
      if hr <? 24 then number_to_string hr ++ "h"
      else number_to_string (hr / 24) ++ "d".

(** The white space [trim] removes, as far as ASCII goes: tab, line feed,
    vertical tab, form feed, carriage return, space. *)
Definition is_space (c : ascii) : bool :=
  let n := nat_of_ascii c in
  ((9 <=? n)%nat && (n <=? 13)%nat) || Nat.eqb n 32.

Fixpoint trimStart (s : string) : string :=
  match s with
  | EmptyString => EmptyString
  | String c rest => if is_space c then trimStart rest else s
  end.

(** The string without its trailing white space. *)
Fixpoint trimEnd (s : string) : string :=
  match s with
  | EmptyString => EmptyString
  | String c rest =>
      match trimEnd rest with
      | EmptyString => if is_space c then EmptyString else String c EmptyString
      | kept => String c kept
      end
  end.

Definition trim (s : string) : string := trimEnd (trimStart s).

Definition lower_ascii (c : ascii) : ascii :=
  let n := nat_of_ascii c in
  if (65 <=? n)%nat && (n <=? 90)%nat then ascii_of_nat (n + 32) else c.

Fixpoint toLowerCase (s : string) : string :=
  match s with
  | EmptyString => EmptyString
  | String c rest => String (lower_ascii c) (toLowerCase rest)
  end.

(** A string as what precedes its last character, and that character. *)
Fixpoint split_last (s : string) : option (string * ascii) :=
  match s with
  | EmptyString => None
  | String c rest =>
      match split_last rest with
      | None => Some (EmptyString, c)
      | Some (front, last) => Some (String c front, last)
      end
  end.

(** The milliseconds of the units [s], [m], [h], [d]; [None] for any other
    character. *)
Definition unit_ms (unit : ascii) : option Z :=
  if Ascii.eqb unit "s" then Some 1000
  else if Ascii.eqb unit "m" then Some (60 * 1000)
  else if Ascii.eqb unit "h" then Some (60 * 60 * 1000)
  else if Ascii.eqb unit "d" then Some (24 * 60 * 60 * 1000)
  else None.

(** [parseDurationToMs(input)].  The pattern [^(\d+)(s|m|h|d)$] is a
    non-empty run of decimal digits followed by one unit letter, and
    [Number(m[1])] is the value of the digits (exact below 2^53). *)
Definition parseDurationToMs (input : option string) : option Z :=
  if negb (truthy (trim (orEmpty input))) then Some (24 * 60 * 60 * 1000)
  else
    let raw := toLowerCase (trim (orEmpty input)) in
    match split_last raw with
    | None => None
    | Some (digits, unit) =>
        match NilZero.uint_of_string digits, unit_ms unit with
        | Some d, Some per_unit =>
            let value := Z.of_uint d in
            if value <=? 0 then None else Some (value * per_unit)
        | _, _ => None
        end
    end.

(** A browser session as the prune filter reads it. *)
Record Browser := {
  session_id : string;
  created_at : option string
}.

Section Prune.

(** [new Date(s).getTime()], [None] for an invalid date (NaN). *)
Variable getTime : string -> option Z.

(** [Math.max(1, Math.min(200, Math.floor(params.limit ?? 20)))]. *)
Definition prune_limit (limit : option Q) : Z :=
  Z.max 1 (Z.min 200 (Qfloor (match limit with Some l => l | None => 20%Q end))).

(** The callback of [all.filter]. *)
Definition prune_match (now olderThanMs : Z) (excludeActive : bool)
           (activeBrowserId : option string) (b : Browser) : bool :=
  if excludeActive && truthy_opt activeBrowserId
     && String.eqb (session_id b) (orEmpty activeBrowserId)
  then false
  else if negb (truthy_opt (created_at b)) then false
  else
    match getTime (orEmpty (created_at b)) with
    | None => false
    | Some created => olderThanMs <=? now - created
    end.

(** What a prune call settles before it deletes anything. *)
Record PrunePlan := {
  plan_matched : nat;
  plan_candidates : list Browser;
  plan_skipped : Z
}.

(** The prune case of [kernel_browser] from [dryRun] to [skippedCount];
    [exclude_active] and [limit] are the optional parameters. *)
Definition prune_plan (now olderThanMs : Z) (exclude_active : option bool)
           (limit : option Q) (activeBrowserId : option string)
           (all : list Browser) : PrunePlan :=
  let excludeActive := match exclude_active with Some b => b | None => true end in
  let matches := filter (prune_match now olderThanMs excludeActive activeBrowserId) all in
  let candidates := firstn (Z.to_nat (prune_limit limit)) matches in
  {| plan_matched := List.length matches;
     plan_candidates := candidates;
     plan_skipped :=
       Z.max 0 (Z.of_nat (List.length matches) - Z.of_nat (List.length candidates)) |}.

End Prune.

(* ===================================================================== *)
(** * The Kernel extension: the status line *)
(* ===================================================================== *)

(** The module variables the status line is made of. *)
Record KernelState := {
  activeBrowserId : option string;
  activeCreatedAt : option string;
  activeTimeoutSeconds : option Z;
  activeProfileName : option string;
  activeHostHint : option string;
  busyOp : option string;
  busySinceMs : option Z;
  lastOkMs : option Z;
  lastErrorMs : option Z
}.

(** Truthiness of an optional number: present and not zero. *)
Definition truthy_num (x : option Z) : bool :=
  match x with
  | Some n => negb (n =? 0)
  | None => false
  end.

Definition num_or_zero (x : option Z) : Z :=
  match x with
  | Some n => n
  | None => 0
  end.

(** [markBusy(op)], [markOk()], [markError()]; [now] is [Date.now()]. *)
Definition markBusy (op : string) (now : Z) (st : KernelState) : KernelState :=
  {| activeBrowserId := activeBrowserId st;
     activeCreatedAt := activeCreatedAt st;
     activeTimeoutSeconds := activeTimeoutSeconds st;
     activeProfileName := activeProfileName st;
     activeHostHint := activeHostHint st;
     busyOp := Some op;
     busySinceMs := Some now;
     lastOkMs := lastOkMs st;
     lastErrorMs := lastErrorMs st |}.

Definition markOk (now : Z) (st : KernelState) : KernelState :=
  {| activeBrowserId := activeBrowserId st;
     activeCreatedAt := activeCreatedAt st;
     activeTimeoutSeconds := activeTimeoutSeconds st;
     activeProfileName := activeProfileName st;
     activeHostHint := activeHostHint st;
     busyOp := None;
     busySinceMs := None;
     lastOkMs := Some now;
     lastErrorMs := None |}.

Definition markError (now : Z) (st : KernelState) : KernelState :=
  {| activeBrowserId := activeBrowserId st;
     activeCreatedAt := activeCreatedAt st;
     activeTimeoutSeconds := activeTimeoutSeconds st;
     activeProfileName := activeProfileName st;
     activeHostHint := activeHostHint st;
     busyOp := None;
     busySinceMs := None;
     lastOkMs := lastOkMs st;
     lastErrorMs := Some now |}.

(** [shortId(id)]. *)
Definition shortId (id : string) : string :=
  if (12 <? String.length id)%nat then substring 0 12 id ++ "…" else id.

Section KernelStatus.

Variable fg : string -> string -> string.

(** [new Date(s).getTime()], [None] for an invalid date (NaN). *)
Variable getTime : string -> option Z.

(** [updateWidget(ctx)]: the text handed to [ctx.ui.setStatus("kernel", _)],
    [None] when there is no UI and nothing is set. *)
Definition updateWidget (hasUI : bool) (now : Z) (st : KernelState) : option string :=
  if negb hasUI then None
  else if negb (truthy_opt (activeBrowserId st)) then
    Some (fg "dim" "Kernel: none · run /kernel or kernel_browser create")
  else
    let id := shortId (orEmpty (activeBrowserId st)) in
    let alias := trim (orEmpty (activeProfileName st)) in
    let label := if truthy alias then alias ++ " (" ++ id ++ ")" else id in
    if truthy_opt (busyOp st) && truthy_num (busySinceMs st) then
      let busyFor := formatAge (now - num_or_zero (busySinceMs st)) in
      Some (fg "warning"
              ("Kernel: " ++ label ++ " · busy (" ++ orEmpty (busyOp st) ++ " "
               ++ busyFor ++ ")"))
    else if truthy_num (lastErrorMs st)
            && (negb (truthy_num (lastOkMs st))
                || (num_or_zero (lastOkMs st) <? num_or_zero (lastErrorMs st))) then
      let okText :=
        if truthy_num (lastOkMs st)
        then "last ok " ++ formatAge (now - num_or_zero (lastOkMs st)) ++ " ago"
        else "no successful call yet" in
      Some (fg "error"
              ("Kernel: " ++ label ++ " · " ++ okText ++ " · state=stale (retry /kernel)"))
    else
      let parts1 := ["Kernel: " ++ label] in
      let parts2 :=
        if truthy_opt (activeHostHint st)
        then (parts1 ++ [orEmpty (activeHostHint st)])%list else parts1 in
      let parts3 :=
        if truthy_opt (activeCreatedAt st) then
          match getTime (orEmpty (activeCreatedAt st)) with
          | Some created =>
              if 0 <=? now - created
              then (parts2 ++ [("age " ++ formatAge (now - created))%string])%list
              else parts2
          | None => parts2
          end
        else parts2 in
      let parts4 :=
        if truthy_num (activeTimeoutSeconds st)
        then (parts3
                ++ [("timeout "
                     ++ number_to_string (num_or_zero (activeTimeoutSeconds st))
                     ++ "s")%string])%list
        else parts3 in
      Some (fg "accent" (String.concat " · " parts4)).

End KernelStatus.

(* ===================================================================== *)
(** * Vocabulary for the further properties *)
(* ===================================================================== *)

(** The counter a check goes to. *)
Inductive Bucket := b_passed | b_failed | b_pending.

(** The branch of the loop body a check takes. *)
Definition bucket (x : Check) : Bucket :=
  let conclusion := toUpperCase (orEmpty (check_conclusion x)) in
  if negb (isCompleted x) then b_pending
  else if includes FAILED_CONCLUSIONS conclusion then b_failed
  else if negb (truthy conclusion) then b_pending
  else if includes PASSED_CONCLUSIONS conclusion then b_passed
  else b_failed.

Definition in_bucket (b : Bucket) (x : Check) : bool :=
  match b, bucket x with
  | b_passed, b_passed => true
  | b_failed, b_failed => true
  | b_pending, b_pending => true
  | _, _ => false
  end.

(** How many checks of a list go to a counter. *)
Definition tallied (b : Bucket) (l : list Check) : Z :=
  Z.of_nat (List.length (filter (in_bucket b) l)).

(* ===================================================================== *)
(** * Strings *)
(* ===================================================================== *)

Lemma truthy_toUpperCase (s : string) : truthy (toUpperCase s) = truthy s.
Proof. destruct s; reflexivity. Qed.

Lemma truthy_true_iff (s : string) : truthy s = true <-> s <> "".
Proof.
  destruct s; simpl; split; intro E; try reflexivity; try discriminate.
  now contradiction E.
Qed.

Lemma truthy_false_iff (s : string) : truthy s = false <-> s = "".
Proof. destruct s; simpl; split; intro E; try reflexivity; discriminate. Qed.

Lemma toUpperCase_empty_iff (s : string) : toUpperCase s = "" <-> s = "".
Proof. rewrite <- !truthy_false_iff. now rewrite truthy_toUpperCase. Qed.



(* ===================================================================== *)
(** * The classifier *)
(* ===================================================================== *)

Lemma count_check_cases (c : Counters) (x : Check) :
  count_check c x = add_passed c \/ count_check c x = add_failed c
  \/ count_check c x = add_pending c.
Proof.
  unfold count_check.
  destruct (negb (isCompleted x)); [now auto|].
  destruct (includes FAILED_CONCLUSIONS _); [now auto|].
  destruct (negb (truthy _)); [now auto|].
  destruct (includes PASSED_CONCLUSIONS _); now auto.
Qed.

Lemma count_check_sum (c : Counters) (x : Check) :
  counters_sum (count_check c x) = counters_sum c + 1.
Proof.
  destruct (count_check_cases c x) as [E | [E | E]]; rewrite E;
    unfold counters_sum; simpl; lia.
Qed.

Lemma fold_count_check_sum (l : list Check) (c : Counters) :
  counters_sum (fold_left count_check l c) = counters_sum c + Z.of_nat (List.length l).
Proof.
  revert c. induction l as [| x l IH]; intro c.
  - simpl. lia.
  - cbn [fold_left List.length]. rewrite IH, count_check_sum. lia.
Qed.


(** C4.  On every sequence of checks the classifier returns counters with
    [total = passed + failed + pending] and [total] the length of the
    sequence; the empty sequence (and an absent one) gives the all-zero
    tally with status "none"; one check moves exactly one of the three
    counters, by one. *)
Theorem classify_counts_every_check_once (checks : list Check) :
  let r := ciProgressFromChecks (Some checks) in
  total r = passed r + failed r + pending r
  /\ total r = Z.of_nat (List.length checks)
  /\ ciProgressFromChecks (Some []) = no_checks
  /\ ciProgressFromChecks None = no_checks
  /\ forall (c : Counters) (x : Check),
       count_check c x = add_passed c \/ count_check c x = add_failed c
       \/ count_check c x = add_pending c.
Proof.
  cbv zeta. repeat split.
  - destruct checks; reflexivity.
  - destruct checks as [| x l]; [reflexivity|].
    unfold ciProgressFromChecks, progress_of_counters. cbn [total].
    pose proof (fold_count_check_sum (x :: l)
                  {| n_passed := 0; n_failed := 0; n_pending := 0 |}) as E.
    unfold counters_sum in E. cbn [n_passed n_failed n_pending] in E.
    lia.
  - apply count_check_cases.
Qed.

Lemma status_progress_of_counters (c : Counters) :
  0 < counters_sum c ->
  status (progress_of_counters c) = derived_status (progress_of_counters c).
Proof.
  unfold counters_sum, progress_of_counters, derived_status. cbn.
  intro Hpos.
  destruct (n_failed c >? 0); [reflexivity|].
  destruct (n_pending c >? 0); [reflexivity|].
  destruct (Z.gtb_spec (n_passed c + n_failed c + n_pending c) 0); [reflexivity | lia].
Qed.

Lemma status_ciProgressFromChecks (checks : option (list Check)) :
  status (ciProgressFromChecks checks) = derived_status (ciProgressFromChecks checks).
Proof.
  destruct checks as [[| x l] |]; try reflexivity.
  unfold ciProgressFromChecks. apply status_progress_of_counters.
  rewrite fold_count_check_sum. unfold counters_sum. cbn. lia.
Qed.

(** C5, the input on which the claim fails: a record without a stored
    tally whose [ci] is "unknown" yields the all-zero tally with status
    "unknown", where the derived status of all-zero counters is "none". *)
Lemma unknown_record_status_not_derived :
  status (ciProgressFromRecord (bare_record ci_unknown None)) = ci_unknown
  /\ derived_status (ciProgressFromRecord (bare_record ci_unknown None)) = ci_none
  /\ status (ciProgressFromRecord (bare_record ci_unknown None))
     <> derived_status (ciProgressFromRecord (bare_record ci_unknown None)).
Proof. repeat split. discriminate. Qed.

(** C5, amended.  The tally built by [ciProgressFromChecks] always carries
    the derived status, and so does the tally of a record made by
    [normalizePr].  [ciProgressFromRecord] hands back a stored tally
    untouched; without one it builds a tally from [ci] whose status is the
    derived one unless [ci] is "unknown", where it is the all-zero tally
    with status "unknown". *)
Theorem status_derived_but_for_unknown_record :
  (forall checks : option (list Check),
      status (ciProgressFromChecks checks) = derived_status (ciProgressFromChecks checks))
  /\ (forall (now : string) (data : GhPrView),
         status (ciProgressFromRecord (normalizePr now data))
         = derived_status (ciProgressFromRecord (normalizePr now data)))
  /\ (forall (pr : PrRecord) (p : CiProgress),
         pr_ciProgress pr = Some p -> ciProgressFromRecord pr = p)
  /\ (forall pr : PrRecord,
         pr_ciProgress pr = None -> pr_ci pr <> ci_unknown ->
         status (ciProgressFromRecord pr) = derived_status (ciProgressFromRecord pr))
  /\ (forall pr : PrRecord,
         pr_ciProgress pr = None -> pr_ci pr = ci_unknown ->
         ciProgressFromRecord pr
         = {| total := 0; passed := 0; failed := 0; pending := 0; status := ci_unknown |}).
Proof.
  split; [exact status_ciProgressFromChecks|].
  split; [intros now data; cbn; apply status_ciProgressFromChecks|].
  split; [intros pr p E; unfold ciProgressFromRecord; now rewrite E|].
  split.
  - intros pr E Hci. unfold ciProgressFromRecord. rewrite E.
    destruct (pr_ci pr); try reflexivity. now contradiction Hci.
  - intros pr E Hci. unfold ciProgressFromRecord. now rewrite E, Hci.
Qed.

Lemma status_derived_but_for_unknown_record_witness :
  ciProgressFromRecord (bare_record ci_fail (Some (tally 3 2 1 0))) = tally 3 2 1 0
  /\ status (ciProgressFromRecord (bare_record ci_pending None))
     = derived_status (ciProgressFromRecord (bare_record ci_pending None))
  /\ ciProgressFromRecord (bare_record ci_unknown None)
     = {| total := 0; passed := 0; failed := 0; pending := 0; status := ci_unknown |}.
Proof.
  destruct status_derived_but_for_unknown_record as [_ [_ [Hstored [Hbuilt Hunknown]]]].
  split; [|split].
  - apply Hstored. reflexivity.
  - apply Hbuilt; [reflexivity | discriminate].
  - apply Hunknown; reflexivity.
Defined.



(* ===================================================================== *)
(** * Merge and review classification *)
(* ===================================================================== *)

(** C7.  [mergeFromState] answers "merged" as soon as the merge timestamp
    is present (a non-empty string) or the upper-cased state is "MERGED",
    whatever the draft flag and the state say otherwise; failing that, a
    draft is "draft", state OPEN is "open", state CLOSED is "closed", and
    everything else is "unknown".  A merged draft whose state reads OPEN is
    "merged". *)
Theorem merged_before_draft_and_state (pr : GhPrView) :
  let state := toUpperCase (orEmpty (gh_state pr)) in
  let merged := truthy_opt (gh_mergedAt pr) = true \/ state = "MERGED" in
  let draft := truthy_flag (gh_isDraft pr) = true in
  (merged -> mergeFromState pr = mg_merged)
  /\ (~ merged -> draft -> mergeFromState pr = mg_draft)
  /\ (~ merged -> ~ draft -> state = "OPEN" -> mergeFromState pr = mg_open)
  /\ (~ merged -> ~ draft -> state = "CLOSED" -> mergeFromState pr = mg_closed)
  /\ (~ merged -> ~ draft -> state <> "OPEN" -> state <> "CLOSED" ->
      mergeFromState pr = mg_unknown)
  /\ mergeFromState (view (Some "OPEN") (Some true) (Some "2024-01-01")) = mg_merged.
Proof.
  cbv zeta. unfold mergeFromState.
  set (at_ := truthy_opt (gh_mergedAt pr)).
  set (state := toUpperCase (orEmpty (gh_state pr))).
  set (draft := truthy_flag (gh_isDraft pr)).
  assert (Hnm : ~ (at_ = true \/ state = "MERGED") ->
                at_ || String.eqb state "MERGED" = false).
  { intro Hn. apply orb_false_iff. split.
    - destruct at_; [exfalso; apply Hn; now left | reflexivity].
    - apply String.eqb_neq. intro E. apply Hn. now right. }
  assert (Hnd : draft <> true -> draft = false).
  { destruct draft; intro Hn; [now contradiction Hn | reflexivity]. }
  split.
  { intros [E | E].
    - rewrite E. reflexivity.
    - apply String.eqb_eq in E. rewrite E, orb_true_r. reflexivity. }
  split.
  { intros Hn Hd. rewrite (Hnm Hn), Hd. reflexivity. }
  split.
  { intros Hn Hd Hs. rewrite (Hnm Hn), (Hnd Hd), Hs. reflexivity. }
  split.
  { intros Hn Hd Hs. rewrite (Hnm Hn), (Hnd Hd), Hs. reflexivity. }
  split; [|reflexivity].
  intros Hn Hd Ho Hc. rewrite (Hnm Hn), (Hnd Hd).
  apply String.eqb_neq in Ho, Hc. now rewrite Ho, Hc.
Qed.

Lemma merged_before_draft_and_state_witness :
  mergeFromState (view (Some "merged") (Some true) None) = mg_merged
  /\ mergeFromState (view (Some "open") (Some true) None) = mg_draft
  /\ mergeFromState (view (Some "Open") None (Some "")) = mg_open
  /\ mergeFromState (view (Some "closed") (Some false) None) = mg_closed
  /\ mergeFromState (view None None None) = mg_unknown.
Proof.
  split; [|split; [|split; [|split]]].
  - destruct (merged_before_draft_and_state (view (Some "merged") (Some true) None))
      as [Hmerged _].
    apply Hmerged. right. reflexivity.
  - destruct (merged_before_draft_and_state (view (Some "open") (Some true) None))
      as [_ [Hdraft _]].
    apply Hdraft; [intros [E | E]; discriminate | reflexivity].
  - destruct (merged_before_draft_and_state (view (Some "Open") None (Some "")))
      as [_ [_ [Hopen _]]].
    apply Hopen; [intros [E | E]; discriminate | discriminate | reflexivity].
  - destruct (merged_before_draft_and_state (view (Some "closed") (Some false) None))
      as [_ [_ [_ [Hclosed _]]]].
    apply Hclosed; [intros [E | E]; discriminate | discriminate | reflexivity].
  - destruct (merged_before_draft_and_state (view None None None))
      as [_ [_ [_ [_ [Hunknown _]]]]].
    apply Hunknown; [intros [E | E]; discriminate | discriminate..].
Defined.

(** C8.  [reviewFromDecision] answers "approved" whenever the merge status
    is "merged", whatever the decision; otherwise the upper-cased decision
    APPROVED gives "approved", CHANGES_REQUESTED "changes", REVIEW_REQUIRED
    "pending", and anything else "unknown".  A merged pull request with
    changes requested is "approved". *)
Theorem merged_is_approved (decision : option string) (merge : option MergeStatus) :
  let value := toUpperCase (orEmpty decision) in
  reviewFromDecision decision (Some mg_merged) = rv_approved
  /\ (merge <> Some mg_merged -> value = "APPROVED" ->
      reviewFromDecision decision merge = rv_approved)
  /\ (merge <> Some mg_merged -> value = "CHANGES_REQUESTED" ->
      reviewFromDecision decision merge = rv_changes)
  /\ (merge <> Some mg_merged -> value = "REVIEW_REQUIRED" ->
      reviewFromDecision decision merge = rv_pending)
  /\ (merge <> Some mg_merged -> value <> "APPROVED" ->
      value <> "CHANGES_REQUESTED" -> value <> "REVIEW_REQUIRED" ->
      reviewFromDecision decision merge = rv_unknown)
  /\ reviewFromDecision (Some "CHANGES_REQUESTED") (Some mg_merged) = rv_approved
  /\ reviewFromDecision (Some "APPROVED") (Some mg_open) = rv_approved.
Proof.
  cbv zeta.
  assert (Hnot : merge <> Some mg_merged -> is_merged merge = false).
  { destruct merge as [[]|]; intro Hn; try reflexivity. now contradiction Hn. }
  unfold reviewFromDecision.
  split; [reflexivity|].
  split; [intros Hn E; rewrite (Hnot Hn), E; reflexivity|].
  split; [intros Hn E; rewrite (Hnot Hn), E; reflexivity|].
  split; [intros Hn E; rewrite (Hnot Hn), E; reflexivity|].
  split; [|split; reflexivity].
  intros Hn Ha Hc Hr. rewrite (Hnot Hn).
  apply String.eqb_neq in Ha, Hc, Hr. now rewrite Ha, Hc, Hr.
Qed.

Lemma merged_is_approved_witness :
  reviewFromDecision (Some "approved") (Some mg_draft) = rv_approved
  /\ reviewFromDecision (Some "changes_requested") None = rv_changes
  /\ reviewFromDecision (Some "Review_Required") (Some mg_open) = rv_pending
  /\ reviewFromDecision None (Some mg_closed) = rv_unknown.
Proof.
  split; [|split; [|split]].
  - destruct (merged_is_approved (Some "approved") (Some mg_draft)) as [_ [Happroved _]].
    apply Happroved; [discriminate | reflexivity].
  - destruct (merged_is_approved (Some "changes_requested") None) as [_ [_ [Hchanges _]]].
    apply Hchanges; [discriminate | reflexivity].
  - destruct (merged_is_approved (Some "Review_Required") (Some mg_open))
      as [_ [_ [_ [Hpending _]]]].
    apply Hpending; [discriminate | reflexivity].
  - destruct (merged_is_approved None (Some mg_closed)) as [_ [_ [_ [_ [Hunknown _]]]]].
    apply Hunknown; discriminate.
Defined.

(* ===================================================================== *)
(** * Slot bookkeeping *)
(* ===================================================================== *)

Ltac split_tests :=
  repeat match goal with
    | |- context [(?a >? ?b)] => destruct (Z.gtb_spec a b)
    | |- context [(?a >=? ?b)] => destruct (Z.geb_spec a b)
    | |- context [(?a =? ?b)] => destruct (Z.eqb_spec a b)
    end.

Ltac slot_arith :=
  unfold nonneg_slots, slots_sum, slot, add_slot in *; cbn in *; try lia.

Lemma slots_sum_add_slot (k : Key) (d : Z) (s : BarAllocation) :
  slots_sum (add_slot k d s) = slots_sum s + d.
Proof. destruct k; slot_arith. Qed.

(** ** The sort *)

Lemma insert_length {A : Type} (cmp : A -> A -> comparison) (x : A) (l : list A) :
  List.length (insert cmp x l) = S (List.length l).
Proof.
  induction l as [| y l IH]; [reflexivity|].
  simpl. destruct (cmp x y); simpl; now rewrite ?IH.
Qed.

Lemma sort_length {A : Type} (cmp : A -> A -> comparison) (l : list A) :
  List.length (sort cmp l) = List.length l.
Proof.
  induction l as [| x l IH]; [reflexivity|].
  unfold sort in *. simpl. now rewrite insert_length, IH.
Qed.

Lemma insert_perm {A : Type} (cmp : A -> A -> comparison) (x : A) (l : list A) :
  Permutation (x :: l) (insert cmp x l).
Proof.
  induction l as [| y l IH]; [apply Permutation_refl|].
  simpl. destruct (cmp x y); try apply Permutation_refl.
  eapply Permutation_trans; [apply perm_swap|]. now apply perm_skip.
Qed.

Lemma sort_perm {A : Type} (cmp : A -> A -> comparison) (l : list A) :
  Permutation l (sort cmp l).
Proof.
  induction l as [| x l IH]; [apply Permutation_refl|].
  unfold sort in *. simpl.
  eapply Permutation_trans; [apply perm_skip, IH | apply insert_perm].
Qed.

Section DistributeFacts.

Context {T : Type} `{Arith T}.

Lemma fractions_length (progress : CiProgress) (width : Z) :
  List.length (fractions progress width) = 3%nat.
Proof. unfold fractions. now rewrite sort_length. Qed.

(** The loop hands out one slot per item until [used] reaches [width]. *)
Lemma distribute_sum (items : list (Fraction T)) (width : Z) :
  forall (s : BarAllocation) (used : Z),
    slots_sum s = used ->
    slots_sum (distribute items width s used)
    = Z.max used (Z.min width (used + Z.of_nat (List.length items))).
Proof.
  induction items as [| item rest IH]; intros s used Hused.
  - simpl. lia.
  - cbn [distribute List.length]. destruct (Z.geb_spec used width).
    + lia.
    + rewrite IH by (rewrite slots_sum_add_slot; lia). lia.
Qed.

Lemma distribute_slot_ge (items : list (Fraction T)) (width : Z) (k : Key) :
  forall (s : BarAllocation) (used : Z),
    slot k s <= slot k (distribute items width s used).
Proof.
  induction items as [| item rest IH]; intros s used.
  - simpl. lia.
  - cbn [distribute]. destruct (used >=? width); [lia|].
    etransitivity; [|apply IH].
    destruct k, (key item); slot_arith.
Qed.

Lemma distributed_sum (progress : CiProgress) (width : Z) :
  slots_sum (distributed progress width)
  = Z.max (slots_sum (floors progress width))
          (Z.min width (slots_sum (floors progress width) + 3)).
Proof.
  unfold distributed. cbv zeta.
  rewrite distribute_sum by reflexivity. now rewrite fractions_length.
Qed.

Lemma distributed_nonneg (progress : CiProgress) (width : Z) :
  nonneg_slots (floors progress width) -> nonneg_slots (distributed progress width).
Proof.
  intros [Hp [Hf Hn]]. unfold distributed. cbv zeta.
  set (s := floors progress width) in *.
  pose proof (distribute_slot_ge (fractions progress width) width k_pass s (slots_sum s)).
  pose proof (distribute_slot_ge (fractions progress width) width k_fail s (slots_sum s)).
  pose proof (distribute_slot_ge (fractions progress width) width k_pending s (slots_sum s)).
  unfold nonneg_slots. cbn [slot] in *. lia.
Qed.

End DistributeFacts.

(** ** borrowSlot *)

Lemma borrowSlot_idle (progress : CiProgress) (target : Key) (s : BarAllocation) :
  raw target progress <= 0 \/ slot target s <> 0 -> borrowSlot progress target s = s.
Proof.
  intro Hidle. unfold borrowSlot.
  destruct target; cbn [raw slot] in Hidle;
    match goal with
    | |- context [(?a >? 0) && (?b =? 0)] =>
        destruct (Z.gtb_spec a 0), (Z.eqb_spec b 0); cbn [andb]; try reflexivity; lia
    end.
Qed.

Lemma borrowSlot_nonneg (progress : CiProgress) (target : Key) (s : BarAllocation) :
  nonneg_slots s -> nonneg_slots (borrowSlot progress target s).
Proof.
  intro Hs. unfold borrowSlot.
  destruct target; split_tests; cbn [andb]; slot_arith.
Qed.

(** A borrow moves a slot when there is one to move. *)
Lemma borrowSlot_sum (progress : CiProgress) (target : Key) (s : BarAllocation) :
  nonneg_slots s -> 1 <= slots_sum s ->
  slots_sum (borrowSlot progress target s) = slots_sum s.
Proof.
  intros Hs Hsum. unfold borrowSlot.
  destruct target; split_tests; cbn [andb]; slot_arith.
Qed.




(** ** The two correction loops *)


(** The loop leaves by its [break] only when every variable is at most 1,
    so a width of three or more is always reached. *)
Lemma shrink_sum (width : Z) (s : BarAllocation) :
  3 <= width -> slots_sum (shrink width s) = Z.min (slots_sum s) width.
Proof.
  intro Hw. funelim (shrink width s);
    try (rewrite H by assumption; rewrite slots_sum_add_slot);
    slot_arith.
Qed.

(** The loop only ever takes from a variable above 1. *)
Lemma shrink_keeps_visible (width : Z) (s : BarAllocation) (k : Key) :
  1 <= slot k s -> 1 <= slot k (shrink width s).
Proof.
  funelim (shrink width s); intro Hk; try assumption.
  all: apply H; destruct k; slot_arith.
Qed.


Lemma grow_sum (progress : CiProgress) (width : Z) (s : BarAllocation) :
  slots_sum (grow progress width s) = Z.max (slots_sum s) width.
Proof.
  funelim (grow progress width s); [|lia].
  rewrite H.
  destruct (pending progress >? 0); [|destruct (passed progress >? 0)];
    rewrite slots_sum_add_slot; lia.
Qed.

Lemma grow_slot_ge (progress : CiProgress) (width : Z) (s : BarAllocation) (k : Key) :
  slot k s <= slot k (grow progress width s).
Proof.
  funelim (grow progress width s); [|lia].
  etransitivity; [|apply H].
  destruct (pending progress >? 0); [|destruct (passed progress >? 0)];
    destruct k; slot_arith.
Qed.

(* ===================================================================== *)
(** * Exact shares *)
(* ===================================================================== *)

Lemma inject_Z_le (x y : Z) : x <= y <-> (inject_Z x <= inject_Z y)%Q.
Proof. now rewrite Zle_Qle. Qed.

Lemma inject_Z_lt (x y : Z) : x < y <-> (inject_Z x < inject_Z y)%Q.
Proof. now rewrite Zlt_Qlt. Qed.

Lemma share_Q_nonneg (count total_ width : Z) :
  0 <= count -> 0 < total_ -> 0 <= width ->
  (0 <= share (T := Q) count total_ width)%Q.
Proof.
  intros Hc Ht Hw. unfold share. cbn.
  apply Qmult_le_0_compat.
  - apply Qmult_le_0_compat.
    + now apply (inject_Z_le 0 count).
    + apply Qinv_le_0_compat. apply (inject_Z_le 0 total_). lia.
  - now apply (inject_Z_le 0 width).
Qed.

Lemma share_Q_sum (p f n total_ width : Z) :
  total_ = p + f + n -> total_ <> 0 ->
  (share (T := Q) p total_ width + share f total_ width + share n total_ width
   == inject_Z width)%Q.
Proof.
  intros Ht Hnz. unfold share. cbn.
  assert (Hq : ~ (inject_Z total_ == 0)%Q).
  { intro E. apply Hnz. now apply (inject_Z_injective total_ 0). }
  rewrite Ht in *. rewrite !inject_Z_plus in *. field. exact Hq.
Qed.

Lemma Qfloor_nonneg (x : Q) : (0 <= x)%Q -> 0 <= Qfloor x.
Proof. intro Hx. change 0 with (Qfloor 0). now apply Qfloor_resp_le. Qed.

(** Each floor is non-negative, and together they miss the width by less
    than three. *)
Lemma floors_Q_bounds (progress : CiProgress) (width : Z) :
  valid_progress progress -> 0 < total progress -> 0 <= width ->
  nonneg_slots (floors (T := Q) progress width)
  /\ width - 3 < slots_sum (floors (T := Q) progress width) <= width.
Proof.
  intros [Hp [Hf [Hn Ht]]] Hpos Hw.
  unfold nonneg_slots, slots_sum, floors. cbn [passSlots failSlots pendingSlots num_floor Arith_Q].
  set (t := total progress) in *.
  set (xp := share (T := Q) (passed progress) t width).
  set (xf := share (T := Q) (failed progress) t width).
  set (xn := share (T := Q) (pending progress) t width).
  assert (Hsum : (xp + xf + xn == inject_Z width)%Q)
    by (apply share_Q_sum; [assumption | lia]).
  pose proof (Qfloor_le xp) as Hp1. pose proof (Qlt_floor xp) as Hp2.
  pose proof (Qfloor_le xf) as Hf1. pose proof (Qlt_floor xf) as Hf2.
  pose proof (Qfloor_le xn) as Hn1. pose proof (Qlt_floor xn) as Hn2.
  rewrite inject_Z_plus in Hp2, Hf2, Hn2.
  repeat split.
  - apply Qfloor_nonneg, share_Q_nonneg; assumption.
  - apply Qfloor_nonneg, share_Q_nonneg; assumption.
  - apply Qfloor_nonneg, share_Q_nonneg; assumption.
  - enough (width < Qfloor xp + Qfloor xf + Qfloor xn + 3) by lia.
    apply inject_Z_lt. rewrite !inject_Z_plus.
    change (inject_Z 3) with 3%Q. change (inject_Z 1) with 1%Q in *. lra.
  - apply inject_Z_le. rewrite !inject_Z_plus. lra.
Qed.


(* ===================================================================== *)
(** * The bar fills the width *)
(* ===================================================================== *)

(** C9.  When [total] is 0 the badge has no bar: the allocation is all
    zero whatever the width, none of the slot steps runs, and the text shown
    is the dimmed frame of dashes followed by "no checks". *)
Theorem zero_total_shows_no_bar {T : Type} `{Arith T}
        (progress : CiProgress) (width : Z) :
  total progress = 0 ->
  ciBadgeBar progress width = NoChecks
  /\ allocate progress width = slots 0 0 0
  /\ forall (fg : string -> string -> string) (pr : PrRecord),
       ciProgressFromRecord pr = progress ->
       ciBadge fg pr = fg "dim" "CI:[-------]" ++ " " ++ fg "dim" "no checks".
Proof.
  intro Hzero.
  assert (Hbar : forall w, ciBadgeBar progress w = NoChecks).
  { intro w. unfold ciBadgeBar. now rewrite Hzero. }
  split; [apply Hbar|].
  split; [unfold allocate; now rewrite Hbar|].
  intros fg pr Hpr. unfold ciBadge. cbv zeta. now rewrite Hpr, Hbar.
Qed.

Lemma zero_total_shows_no_bar_witness :
  ciBadgeBar (T := float) no_checks 7 = NoChecks
  /\ allocate (T := float) no_checks 7 = slots 0 0 0
  /\ ciBadge (T := float) plain (bare_record ci_none None) = "CI:[-------] no checks".
Proof.
  destruct (zero_total_shows_no_bar (T := float) no_checks 7 eq_refl)
    as [Hbar [Hzero Htext]].
  split; [exact Hbar|]. split; [exact Hzero|].
  exact (Htext plain (bare_record ci_none None) eq_refl).
Defined.





(** From width 3 on the two correction loops alone force the sum, for any
    counters and any arithmetic of the shares, binary64 included. *)
Lemma any_arithmetic_fills_from_width_three {T : Type} `{Arith T}
      (progress : CiProgress) (width : Z) :
  total progress <> 0 -> 3 <= width ->
  slots_sum (allocate progress width) = width.
Proof.
  intros Hnz Hw. unfold allocate, ciBadgeBar.
  destruct (Z.eqb_spec (total progress) 0); [contradiction|].
  unfold barSlots. rewrite grow_sum, shrink_sum by assumption. lia.
Qed.

(* ===================================================================== *)
(** * Failures stay visible *)
(* ===================================================================== *)

Lemma borrow_fail_makes_visible (progress : CiProgress) (s : BarAllocation) :
  nonneg_slots s -> 0 < failed progress ->
  1 <= failSlots (borrowSlot progress k_fail s).
Proof.
  intros Hs Hf. unfold borrowSlot. split_tests; cbn [andb]; slot_arith.
Qed.

(** A later borrow takes the last failure slot only when it is the only
    slot there is. *)
Lemma borrow_keeps_fail (progress : CiProgress) (target : Key) (s : BarAllocation) :
  nonneg_slots s -> 0 < failed progress -> 1 <= failSlots s ->
  nonzero_categories progress <= slots_sum s ->
  1 <= failSlots (borrowSlot progress target s).
Proof.
  intros Hs Hf Hvis. unfold nonzero_categories, borrowSlot.
  destruct target; split_tests; cbn [andb]; intro Hcat; slot_arith.
Qed.

Lemma nonzero_categories_bounds (progress : CiProgress) :
  0 < failed progress -> 1 <= nonzero_categories progress <= 3.
Proof. intro Hf. unfold nonzero_categories. split_tests; lia. Qed.


(** The argument does not look at the shares: once the floors are not
    negative, the leftover loop leaves at least as many slots as there are
    non-zero categories, the borrow for "fail" makes it visible, the two
    later borrows keep it so, and the loops never take a last slot. *)
Lemma failures_visible_over_nonneg_floors {T : Type} `{Arith T}
      (progress : CiProgress) (width : Z) :
  nonneg_slots (floors progress width) ->
  total progress <> 0 -> 0 < failed progress ->
  nonzero_categories progress <= width ->
  1 <= failSlots (allocate progress width).
Proof.
  intros Hfl Hnz Hf Hcat. unfold allocate, ciBadgeBar.
  destruct (Z.eqb_spec (total progress) 0); [contradiction|].
  unfold barSlots, borrowAll.
  pose proof (nonzero_categories_bounds progress Hf) as Hb.
  pose proof (distributed_nonneg progress width Hfl) as Hnn.
  assert (Hroom : nonzero_categories progress <= slots_sum (distributed progress width)).
  { rewrite distributed_sum. destruct Hfl as [? [? ?]]. unfold slots_sum. lia. }
  set (s1 := distributed progress width) in *.
  pose proof (borrowSlot_nonneg progress k_fail s1 Hnn) as Hnn2.
  pose proof (borrowSlot_sum progress k_fail s1 Hnn ltac:(lia)) as Hsum2.
  pose proof (borrow_fail_makes_visible progress s1 Hnn Hf) as Hvis2.
  set (s2 := borrowSlot progress k_fail s1) in *.
  pose proof (borrowSlot_nonneg progress k_pending s2 Hnn2) as Hnn3.
  pose proof (borrowSlot_sum progress k_pending s2 Hnn2 ltac:(lia)) as Hsum3.
  pose proof (borrow_keeps_fail progress k_pending s2 Hnn2 Hf Hvis2 ltac:(lia)) as Hvis3.
  set (s3 := borrowSlot progress k_pending s2) in *.
  pose proof (borrow_keeps_fail progress k_pass s3 Hnn3 Hf Hvis3 ltac:(lia)) as Hvis4.
  etransitivity; [|apply (grow_slot_ge progress width _ k_fail)].
  now apply (shrink_keeps_visible width _ k_fail).
Qed.

(* ===================================================================== *)
(** * What a borrow takes *)
(* ===================================================================== *)









(* ===================================================================== *)
(** * Ties between remainders *)
(* ===================================================================== *)

Lemma precedes_first_second {A : Type} (a b : A) (l : list A) :
  precedes a b (a :: b :: l).
Proof. now exists [], [], l. Qed.

Lemma precedes_first_third {A : Type} (a b x : A) (l : list A) :
  precedes a b (a :: x :: b :: l).
Proof. now exists [], [x], l. Qed.

Lemma precedes_second_third {A : Type} (a b x : A) (l : list A) :
  precedes a b (x :: a :: b :: l).
Proof. now exists [x], [], l. Qed.

Create HintDb order.

#[local] Hint Resolve precedes_first_second precedes_first_third
  precedes_second_third : order.

Section Ties.

Context {T : Type} `{Arith T}.

Variable progress : CiProgress.
Variable width : Z.

Let item := fraction (T := T) progress width.

(** The six outcomes of sorting the three entries. *)
Lemma fractions_order :
  fractions progress width
  = match by_frac_desc (item k_fail) (item k_pending) with
    | Gt =>
        match by_frac_desc (item k_pass) (item k_pending) with
        | Gt =>
            match by_frac_desc (item k_pass) (item k_fail) with
            | Gt => [item k_pending; item k_fail; item k_pass]
            | _ => [item k_pending; item k_pass; item k_fail]
            end
        | _ => [item k_pass; item k_pending; item k_fail]
        end
    | _ =>
        match by_frac_desc (item k_pass) (item k_fail) with
        | Gt =>
            match by_frac_desc (item k_pass) (item k_pending) with
            | Gt => [item k_fail; item k_pending; item k_pass]
            | _ => [item k_fail; item k_pass; item k_pending]
            end
        | _ => [item k_pass; item k_fail; item k_pending]
        end
    end.
Proof.
  unfold fractions, sort, item. cbn [fold_right insert].
  destruct (by_frac_desc _ _); cbn [insert];
    repeat match goal with
      | |- context [match by_frac_desc ?x ?y with _ => _ end] =>
          destruct (by_frac_desc x y)
      end; reflexivity.
Qed.

End Ties.

(** C10.  The sorted list holds the three keys once each.  Two categories
    whose remainders the comparator finds equal keep the order of the
    literal [pass, fail, pending], so of two such categories the later one
    receives a leftover slot only if the earlier one does; when all three
    tie the leftover goes to pass, then fail, then pending.  The allocation
    is a function of the tally and the width. *)
Theorem ties_keep_construction_order {T : Type} `{Arith T}
        (progress : CiProgress) (width : Z) :
  let order := map key (fractions progress width) in
  Permutation [k_pass; k_fail; k_pending] order
  /\ (forall a b : Key,
         rank a < rank b -> ties progress width a b -> precedes a b order)
  /\ (forall a b : Key,
         rank a < rank b -> ties progress width a b ->
         slot b (distributed progress width) = slot b (floors progress width) + 1 ->
         slot a (distributed progress width) = slot a (floors progress width) + 1)
  /\ (ties progress width k_pass k_fail -> ties progress width k_fail k_pending ->
      order = [k_pass; k_fail; k_pending]).
Proof.
  cbv zeta. split; [|split; [|split]].
  - unfold fractions.
    apply (Permutation_map key
             (l := [ fraction progress width k_pass; fraction progress width k_fail;
                     fraction progress width k_pending ])).
    apply sort_perm.
  - intros a b Hrank Htie. rewrite fractions_order.
    destruct a, b; cbn in Hrank; try lia;
      unfold ties in Htie; rewrite Htie;
      repeat match goal with
        | |- context [match by_frac_desc ?x ?y with _ => _ end] =>
            destruct (by_frac_desc x y)
        end;
      cbn [map key fraction]; auto with order.
  - intros a b Hrank Htie. unfold distributed. cbv zeta. rewrite fractions_order.
    destruct a, b; cbn in Hrank; try lia;
      unfold ties in Htie; rewrite Htie;
      repeat match goal with
        | |- context [match by_frac_desc ?x ?y with _ => _ end] =>
            destruct (by_frac_desc x y)
        end;
      cbn [distribute key fraction]; split_tests; slot_arith.
  - intros Hpf Hfn. rewrite fractions_order.
    unfold ties in Hpf, Hfn. now rewrite Hpf, Hfn.
Qed.

Lemma ties_keep_construction_order_witness :
  map key (fractions (T := Q) (tally 3 1 1 1) 7) = [k_pass; k_fail; k_pending]
  /\ precedes k_pass k_fail (map key (fractions (T := Q) (tally 2 1 1 0) 7))
  /\ slot k_pass (distributed (T := Q) (tally 2 1 1 0) 7)
     = slot k_pass (floors (T := Q) (tally 2 1 1 0) 7) + 1.
Proof.
  split; [|split].
  - destruct (ties_keep_construction_order (T := Q) (tally 3 1 1 1) 7)
      as [_ [_ [_ Hall]]].
    apply Hall; reflexivity.
  - destruct (ties_keep_construction_order (T := Q) (tally 2 1 1 0) 7)
      as [_ [Hstable _]].
    apply Hstable; [cbn; lia | reflexivity].
  - reflexivity.
Defined.

(** In exact arithmetic the comparator is the order of the rationals: a tie
    is an equality of remainders, and the sorted list is descending. *)
Lemma ties_Q_iff (progress : CiProgress) (width : Z) (a b : Key) :
  ties (T := Q) progress width a b
  <-> (frac_of (T := Q) progress width a == frac_of progress width b)%Q.
Proof.
  unfold ties, by_frac_desc, fraction. cbn. rewrite <- Qeq_alt. split; intro E; lra.
Qed.

Lemma by_frac_desc_Q_Gt (x y : Fraction Q) :
  by_frac_desc x y = Gt <-> (frac x < frac y)%Q.
Proof.
  unfold by_frac_desc. cbn. rewrite <- Qgt_alt. split; intro E; lra.
Qed.

Lemma by_frac_desc_Q_not_Gt (x y : Fraction Q) :
  by_frac_desc x y <> Gt <-> (frac y <= frac x)%Q.
Proof.
  rewrite by_frac_desc_Q_Gt. split; intro E; lra.
Qed.

Lemma fractions_Q_descending (progress : CiProgress) (width : Z) :
  descending (fractions (T := Q) progress width).
Proof.
  rewrite fractions_order.
  destruct (by_frac_desc _ _) eqn:E1;
    destruct (by_frac_desc (fraction progress width k_pass) (fraction progress width k_fail))
      eqn:E2;
    destruct (by_frac_desc (fraction progress width k_pass)
                (fraction progress width k_pending)) eqn:E3;
    cbn [descending];
    repeat match goal with
      | E : by_frac_desc _ _ = Gt |- _ => apply by_frac_desc_Q_Gt in E
      | E : by_frac_desc ?x ?y = _ |- _ =>
          assert (frac y <= frac x)%Q by (apply by_frac_desc_Q_not_Gt; congruence);
          clear E
      end;
    repeat split; lra.
Qed.

(* ===================================================================== *)
(** * Binary64 shares *)
(* ===================================================================== *)

Lemma binary_round_aux_sign_clear (prec emax mx ex : Z) (lx : location) :
  sign_clear (binary_round_aux prec emax false mx ex lx).
Proof.
  unfold binary_round_aux.
  destruct (shr_fexp prec emax mx ex lx) as [mrs e].
  destruct (shr_fexp prec emax _ e loc_Exact) as [mrs' e'].
  destruct (shr_m mrs'); [reflexivity | | exact I].
  destruct (e' <=? emax - prec); reflexivity.
Qed.

Lemma SFmul_sign_clear (prec emax : Z) (x y : spec_float) :
  sign_clear x -> sign_clear y -> sign_clear (SFmul prec emax x y).
Proof.
  destruct x, y; cbn; intros Hx Hy; subst; cbn; trivial.
  apply binary_round_aux_sign_clear.
Qed.

Lemma SFdiv_sign_clear (prec emax : Z) (x y : spec_float) :
  sign_clear x -> sign_clear y -> sign_clear (SFdiv prec emax x y).
Proof.
  destruct x, y; cbn; intros Hx Hy; subst; cbn; trivial.
  destruct (SFdiv_core_binary prec emax _ _ _ _) as [[mz ez] lz].
  apply binary_round_aux_sign_clear.
Qed.

Lemma float_of_Z_sign_clear (z : Z) : 0 <= z -> sign_clear (Prim2SF (float_of_Z z)).
Proof.
  intro Hz. unfold float_of_Z.
  destruct (Z.ltb_spec z 0); [lia|].
  rewrite FloatAxioms.of_uint63_spec. unfold binary_normalize.
  pose proof (Uint63.to_Z_bounded (Uint63.of_Z z)) as Hb.
  destruct (Uint63.to_Z (Uint63.of_Z z)); [reflexivity | | lia].
  unfold binary_round.
  destruct (shl_align _ _ _) as [mz ez]. apply binary_round_aux_sign_clear.
Qed.

Lemma float_floor_nonneg (x : float) : sign_clear (Prim2SF x) -> 0 <= float_floor x.
Proof.
  unfold float_floor. destruct (Prim2SF x) as [| | | s m e]; cbn; try lia.
  intros ->. apply Z.shiftl_nonneg. lia.
Qed.

Lemma share_float_nonneg (count total_ width : Z) :
  0 <= count -> 0 <= total_ -> 0 <= width ->
  0 <= float_floor (share (T := float) count total_ width).
Proof.
  intros Hc Ht Hw. apply float_floor_nonneg. unfold share. cbn.
  rewrite FloatAxioms.mul_spec, FloatAxioms.div_spec.
  apply SFmul_sign_clear; [apply SFdiv_sign_clear|]; now apply float_of_Z_sign_clear.
Qed.

(** What binary64 computes for the floors is never negative. *)
Lemma floors_float_nonneg (progress : CiProgress) (width : Z) :
  0 <= passed progress -> 0 <= failed progress -> 0 <= pending progress ->
  0 <= total progress -> 0 <= width ->
  nonneg_slots (floors (T := float) progress width).
Proof.
  intros Hp Hf Hn Ht Hw. unfold nonneg_slots, floors. cbn.
  repeat split; now apply share_float_nonneg.
Qed.

(** C1 on the arithmetic of the engine, from width 3 on: the configured
    width 7 is covered whatever the rounding does. *)
Lemma binary64_fills_from_width_three (progress : CiProgress) (width : Z) :
  total progress <> 0 -> 3 <= width ->
  slots_sum (allocate (T := float) progress width) = width.
Proof. apply any_arithmetic_fills_from_width_three. Qed.

(* ===================================================================== *)
(** * Failures stay visible, in both arithmetics *)
(* ===================================================================== *)

(** C2.  For every progress tally with [failed > 0] and every width at
    least the number of categories with a non-zero count, the allocation
    gives the failed category one slot or more, with exact shares and with
    binary64 shares alike. *)
Theorem failures_stay_visible (progress : CiProgress) (width : Z) :
  valid_progress progress -> 0 < failed progress ->
  nonzero_categories progress <= width ->
  1 <= failSlots (allocate (T := Q) progress width)
  /\ 1 <= failSlots (allocate (T := float) progress width).
Proof.
  intros Hv Hf Hcat.
  pose proof (nonzero_categories_bounds progress Hf) as Hb.
  assert (Hpos : 0 < total progress) by (destruct Hv as [? [? [? ->]]]; lia).
  split; apply failures_visible_over_nonneg_floors; try assumption; try lia.
  - now apply floors_Q_bounds; try lia.
  - destruct Hv as [? [? [? ?]]]. apply floors_float_nonneg; lia.
Qed.

Lemma failures_stay_visible_witness :
  1 <= failSlots (allocate (T := Q) (tally 100 50 1 49) 7)
  /\ 1 <= failSlots (allocate (T := float) (tally 100 50 1 49) 7).
Proof.
  apply (failures_stay_visible (tally 100 50 1 49) 7).
  - unfold valid_progress. cbn. lia.
  - cbn. lia.
  - unfold nonzero_categories. cbn. lia.
Defined.

(* ===================================================================== *)
(** * Worked scenarios *)
(* ===================================================================== *)

(** The three scenarios of the specification, in both arithmetics. *)
Example scenario_five_passed_two_pending :
  allocate (T := Q) (tally 7 5 0 2) 7 = slots 5 0 2
  /\ allocate (T := float) (tally 7 5 0 2) 7 = slots 5 0 2.
Proof. split; vm_compute; reflexivity. Qed.

Example scenario_two_passed_one_failed :
  allocate (T := Q) (tally 3 2 1 0) 7 = slots 5 2 0
  /\ allocate (T := float) (tally 3 2 1 0) 7 = slots 5 2 0.
Proof. split; vm_compute; reflexivity. Qed.

Example scenario_nine_passed_one_failed :
  distributed (T := Q) (tally 10 9 1 0) 7 = slots 6 1 0
  /\ allocate (T := Q) (tally 10 9 1 0) 7 = slots 6 1 0
  /\ allocate (T := float) (tally 10 9 1 0) 7 = slots 6 1 0.
Proof. repeat split; vm_compute; reflexivity. Qed.

(** A borrow at the width the badge uses: one failure among a hundred
    checks gets its slot from "pending". *)
Example scenario_one_failure_in_a_hundred :
  distributed (T := float) (tally 100 50 1 49) 7 = slots 4 0 3
  /\ allocate (T := float) (tally 100 50 1 49) 7 = slots 4 1 2
  /\ allocate (T := Q) (tally 100 50 1 49) 7 = slots 4 1 2
  /\ ciBadge (T := float) plain (bare_record ci_fail (Some (tally 100 50 1 49)))
     = "CI:[====!~~] 50/100 +1 fail (49 waiting)".
Proof. repeat split; vm_compute; reflexivity. Qed.

(** Where rounding shows: the three remainders of 1, 13 and 7 checks out of
    21 are all 1/3, a tie that exact arithmetic settles in favour of "pass";
    in binary64 the computed remainders differ in their last bits, "fail"
    sorts first, and the bar differs. *)
Example binary64_remainders_need_not_tie :
  map key (fractions (T := Q) (tally 21 1 13 7) 7) = [k_pass; k_fail; k_pending]
  /\ map key (fractions (T := float) (tally 21 1 13 7) 7) = [k_fail; k_pass; k_pending]
  /\ allocate (T := Q) (tally 21 1 13 7) 7 = slots 1 4 2
  /\ allocate (T := float) (tally 21 1 13 7) 7 = slots 1 5 1.
Proof. repeat split; vm_compute; reflexivity. Qed.

(** Two non-zero categories on a bar of width 1: the last borrow hands the
    only slot to "pass". *)
Example scenario_width_one :
  allocate (T := Q) (tally 2 1 1 0) 1 = slots 1 0 0
  /\ allocate (T := float) (tally 2 1 1 0) 1 = slots 1 0 0
  /\ nonzero_categories (tally 2 1 1 0) = 2.
Proof. repeat split; vm_compute; reflexivity. Qed.

(* ===================================================================== *)
(** * More on the classifier *)
(* ===================================================================== *)

Lemma count_check_bucket (c : Counters) (x : Check) :
  count_check c x
  = match bucket x with
    | b_passed => add_passed c
    | b_failed => add_failed c
    | b_pending => add_pending c
    end.
Proof.
  unfold count_check, bucket.
  destruct (negb (isCompleted x)); [reflexivity|].
  destruct (includes FAILED_CONCLUSIONS _); [reflexivity|].
  destruct (negb (truthy _)); [reflexivity|].
  destruct (includes PASSED_CONCLUSIONS _); reflexivity.
Qed.

(** The loop adds to each counter the number of checks that go to it. *)
Lemma fold_count_check_tallied (l : list Check) (c : Counters) :
  fold_left count_check l c
  = {| n_passed := n_passed c + tallied b_passed l;
       n_failed := n_failed c + tallied b_failed l;
       n_pending := n_pending c + tallied b_pending l |}.
Proof.
  revert c. induction l as [| x l IH]; intro c.
  - destruct c. unfold tallied. cbn. f_equal; lia.
  - cbn [fold_left]. rewrite IH, count_check_bucket.
    unfold tallied, in_bucket. cbn [filter].
    destruct (bucket x); cbn [add_passed add_failed add_pending n_passed n_failed n_pending
                              List.length];
      f_equal; lia.
Qed.

Lemma tallied_nonneg (b : Bucket) (l : list Check) : 0 <= tallied b l.
Proof. unfold tallied. lia. Qed.

Lemma tallied_pos_iff (b : Bucket) (l : list Check) :
  0 < tallied b l <-> exists x, In x l /\ bucket x = b.
Proof.
  unfold tallied. split.
  - intro Hpos. destruct (filter (in_bucket b) l) as [| x rest] eqn:E; [cbn in Hpos; lia|].
    assert (Hin : In x (filter (in_bucket b) l)) by (rewrite E; now left).
    apply filter_In in Hin. destruct Hin as [Hin Hb].
    exists x. split; [assumption|].
    unfold in_bucket in Hb. destruct b, (bucket x); congruence.
  - intros [x [Hin Hb]].
    assert (Hf : In x (filter (in_bucket b) l)).
    { apply filter_In. split; [assumption|]. unfold in_bucket. rewrite Hb. now destruct b. }
    destruct (filter (in_bucket b) l); [contradiction | cbn; lia].
Qed.

Lemma tallied_perm (b : Bucket) (l l' : list Check) :
  Permutation l l' -> tallied b l = tallied b l'.
Proof.
  intro Hperm. unfold tallied. f_equal.
  apply Permutation_length. clear -Hperm.
  induction Hperm; cbn.
  - constructor.
  - destruct (in_bucket b x); [now constructor | assumption].
  - destruct (in_bucket b x), (in_bucket b y); try apply Permutation_refl.
    apply perm_swap.
  - eapply Permutation_trans; eassumption.
Qed.

Lemma ciProgressFromChecks_tallied (x : Check) (l : list Check) :
  ciProgressFromChecks (Some (x :: l))
  = progress_of_counters
      {| n_passed := tallied b_passed (x :: l);
         n_failed := tallied b_failed (x :: l);
         n_pending := tallied b_pending (x :: l) |}.
Proof.
  unfold ciProgressFromChecks. now rewrite fold_count_check_tallied.
Qed.

(** X1.  The tally does not depend on the order of the checks. *)
Theorem classify_order_independent (l l' : list Check) :
  Permutation l l' ->
  ciProgressFromChecks (Some l) = ciProgressFromChecks (Some l').
Proof.
  intro Hperm.
  destruct l as [| x l]; destruct l' as [| x' l'].
  - reflexivity.
  - apply Permutation_nil in Hperm. discriminate.
  - apply Permutation_sym, Permutation_nil in Hperm. discriminate.
  - rewrite !ciProgressFromChecks_tallied.
    now rewrite !(tallied_perm _ _ _ Hperm).
Qed.

Lemma classify_order_independent_witness :
  ciProgressFromChecks
    (Some [check (Some "COMPLETED") (Some "FAILURE"); check (Some "QUEUED") None])
  = ciProgressFromChecks
      (Some [check (Some "QUEUED") None; check (Some "COMPLETED") (Some "FAILURE")]).
Proof.
  apply classify_order_independent. apply perm_swap.
Defined.

(** X2.  The status of a tally built from checks: "fail" exactly when some
    check is counted as failed; "pending" exactly when none is counted as
    failed and some is counted as pending; "pass" exactly when there is a
    check and all are counted as passed; "none" exactly when there is no
    check.  It is never "unknown". *)
Theorem status_aggregates_checks (l : list Check) :
  let r := ciProgressFromChecks (Some l) in
  (status r = ci_fail <-> exists x, In x l /\ bucket x = b_failed)
  /\ (status r = ci_pending <->
      (forall x, In x l -> bucket x <> b_failed)
      /\ exists x, In x l /\ bucket x = b_pending)
  /\ (status r = ci_pass <-> l <> [] /\ forall x, In x l -> bucket x = b_passed)
  /\ (status r = ci_none <-> l = [])
  /\ status r <> ci_unknown.
Proof.
  cbv zeta. destruct l as [| x0 l0].
  { cbn.
    split; [split; [discriminate | intros [x [[] _]]]|].
    split; [split; [discriminate | intros [_ [x [[] _]]]]|].
    split; [split; [discriminate | intros [Hne _]; now contradiction Hne]|].
    split; [split; reflexivity | discriminate]. }
  rewrite ciProgressFromChecks_tallied. set (l := x0 :: l0).
  unfold progress_of_counters. cbn [status n_failed n_pending].
  pose proof (tallied_pos_iff b_failed l) as Hf.
  pose proof (tallied_pos_iff b_pending l) as Hp.
  pose proof (tallied_nonneg b_failed l) as Hf0.
  pose proof (tallied_nonneg b_pending l) as Hp0.
  assert (Hnofail : tallied b_failed l <= 0 <-> forall x, In x l -> bucket x <> b_failed).
  { split.
    - intros Hz x Hin Hb. assert (0 < tallied b_failed l) by (apply Hf; eauto). lia.
    - intro Hall. destruct (Z_lt_le_dec 0 (tallied b_failed l)) as [Hpos | Hle]; [|lia].
      apply Hf in Hpos. destruct Hpos as [x [Hin Hb]]. exfalso. now apply (Hall x). }
  assert (Hallpass : tallied b_failed l <= 0 /\ tallied b_pending l <= 0
                     <-> forall x, In x l -> bucket x = b_passed).
  { split.
    - intros [Hzf Hzp] x Hin. destruct (bucket x) eqn:Hb; [reflexivity | |].
      + assert (0 < tallied b_failed l) by (apply Hf; eauto). lia.
      + assert (0 < tallied b_pending l) by (apply Hp; eauto). lia.
    - intro Hall. split.
      + destruct (Z_lt_le_dec 0 (tallied b_failed l)) as [Hpos | Hle]; [|lia].
        apply Hf in Hpos. destruct Hpos as [x [Hin Hb]]. rewrite (Hall x Hin) in Hb.
        discriminate.
      + destruct (Z_lt_le_dec 0 (tallied b_pending l)) as [Hpos | Hle]; [|lia].
        apply Hp in Hpos. destruct Hpos as [x [Hin Hb]]. rewrite (Hall x Hin) in Hb.
        discriminate. }
  destruct (Z.gtb_spec (tallied b_failed l) 0) as [Hfpos | Hfz].
  - split; [split; [intros _; now apply Hf | reflexivity]|].
    split; [split; [discriminate | intros [Hall _]; apply Hnofail in Hall; lia]|].
    split; [split; [discriminate | intros [_ Hall]; apply Hallpass in Hall; lia]|].
    split; [split; discriminate | discriminate].
  - split; [split; [destruct (_ >? _); discriminate | intro He; apply Hf in He; lia]|].
    destruct (Z.gtb_spec (tallied b_pending l) 0) as [Hppos | Hpz].
    + split; [split; [intros _; split; [now apply Hnofail | now apply Hp] | reflexivity]|].
      split; [split; [discriminate | intros [_ Hall]; apply Hallpass in Hall; lia]|].
      split; [split; discriminate | discriminate].
    + split; [split; [discriminate | intros [_ He]; apply Hp in He; lia]|].
      split; [split; [intros _; split; [discriminate | now apply Hallpass]
                     | reflexivity]|].
      split; [split; discriminate | discriminate].
Qed.

Lemma status_aggregates_checks_witness :
  status (ciProgressFromChecks
            (Some [check (Some "COMPLETED") (Some "SUCCESS");
                   check (Some "COMPLETED") (Some "timed_out")])) = ci_fail.
Proof.
  destruct (status_aggregates_checks
              [check (Some "COMPLETED") (Some "SUCCESS");
               check (Some "COMPLETED") (Some "timed_out")]) as [[_ Hfail] _].
  apply Hfail. exists (check (Some "COMPLETED") (Some "timed_out")).
  split; [right; now left | reflexivity].
Defined.

Lemma mergeFromState_merged (data : GhPrView) :
  truthy_opt (gh_mergedAt data) = true
  \/ toUpperCase (orEmpty (gh_state data)) = "MERGED" ->
  mergeFromState data = mg_merged.
Proof.
  intros [E | E]; unfold mergeFromState.
  - now rewrite E.
  - apply String.eqb_eq in E. now rewrite E, orb_true_r.
Qed.

(** X3.  In a record made by [normalizePr], a view with a merge timestamp
    or with state MERGED is "merged" and "approved" whatever its review
    decision and draft flag say; the record's [ci] is the status of the
    tally it stores, which is the tally [ciProgressFromRecord] reads back. *)
Theorem normalized_merged_is_approved (now : string) (data : GhPrView) :
  let pr := normalizePr now data in
  (truthy_opt (gh_mergedAt data) = true
   \/ toUpperCase (orEmpty (gh_state data)) = "MERGED" ->
   pr_merge pr = mg_merged /\ pr_review pr = rv_approved)
  /\ ciProgressFromRecord pr = ciProgressFromChecks (gh_statusCheckRollup data)
  /\ pr_ci pr = status (ciProgressFromRecord pr)
  /\ pr_ci pr <> ci_unknown.
Proof.
  cbv zeta. split; [|split; [reflexivity | split; [reflexivity|]]].
  - intro Hmerged.
    assert (E : mergeFromState data = mg_merged)
      by (now apply mergeFromState_merged).
    unfold normalizePr. cbn. rewrite E. split; reflexivity.
  - cbn. destruct (gh_statusCheckRollup data) as [l |]; [|discriminate].
    apply status_aggregates_checks.
Qed.

Lemma normalized_merged_is_approved_witness :
  pr_review (normalizePr "2024-01-02T00:00:00.000Z"
               (view (Some "OPEN") (Some true) (Some "2024-01-01"))) = rv_approved.
Proof.
  destruct (normalized_merged_is_approved "2024-01-02T00:00:00.000Z"
              (view (Some "OPEN") (Some true) (Some "2024-01-01"))) as [Hmerged _].
  apply Hmerged. left. reflexivity.
Defined.

(* ===================================================================== *)
(** * More on the bar *)
(* ===================================================================== *)













(** ** The bar as text *)


Lemma string_app_length (a b : string) :
  String.length (a ++ b) = (String.length a + String.length b)%nat.
Proof. induction a as [| ch a IH]; cbn; [reflexivity | now rewrite IH]. Qed.




(* ===================================================================== *)
(** * The tracked list *)
(* ===================================================================== *)

Lemma firstn_incl_In {A : Type} (n : nat) (l : list A) (x : A) :
  In x (firstn n l) -> In x l.
Proof.
  revert l. induction n as [| n IH]; intros [| y l]; cbn; try tauto.
  intros [E | Hin]; [now left | right; now apply IH].
Qed.

Lemma NoDup_firstn_map {A B : Type} (f : A -> B) (n : nat) (l : list A) :
  NoDup (map f l) -> NoDup (map f (firstn n l)).
Proof.
  revert l. induction n as [| n IH]; intros [| y l]; cbn; intro Hnd; try constructor.
  - inversion Hnd as [| ? ? Hnotin Hrest]; subst.
    intro Hin. apply Hnotin. apply in_map_iff in Hin. destruct Hin as [x [E Hin]].
    apply in_map_iff. exists x. split; [assumption | now apply (firstn_incl_In n)].
  - inversion Hnd; subst. now apply IH.
Qed.

Lemma NoDup_filter_map {A B : Type} (f : A -> B) (keep : A -> bool) (l : list A) :
  NoDup (map f l) -> NoDup (map f (filter keep l)).
Proof.
  induction l as [| y l IH]; cbn; intro Hnd; [constructor|].
  inversion Hnd as [| ? ? Hnotin Hrest]; subst.
  destruct (keep y); cbn; [|now apply IH].
  constructor; [|now apply IH].
  intro Hin. apply Hnotin. apply in_map_iff in Hin. destruct Hin as [x [E Hin]].
  apply in_map_iff. exists x. split; [assumption|]. apply filter_In in Hin. tauto.
Qed.

Lemma other_numbers (num : Z) (prs : list PrRecord) :
  ~ In num (map pr_number (filter (fun p => negb (pr_number p =? num)) prs)).
Proof.
  intro Hin. apply in_map_iff in Hin. destruct Hin as [p [E Hin]].
  apply filter_In in Hin. destruct Hin as [_ Hne].
  rewrite E, Z.eqb_refl in Hne. discriminate.
Qed.

Lemma filter_all_kept {A : Type} (keep : A -> bool) (l : list A) :
  (forall x, In x l -> keep x = true) -> filter keep l = l.
Proof.
  induction l as [| y l IH]; cbn; intro Hall; [reflexivity|].
  rewrite (Hall y) by now left. f_equal. apply IH. intros x Hin. apply Hall. now right.
Qed.

Lemma filter_length_le {A : Type} (keep : A -> bool) (l : list A) :
  (List.length (filter keep l) <= List.length l)%nat.
Proof. induction l as [| y l IH]; cbn; [lia|]. destruct (keep y); cbn; lia. Qed.

Lemma filter_length_lt {A : Type} (keep : A -> bool) (l : list A) (x : A) :
  In x l -> keep x = false -> (List.length (filter keep l) < List.length l)%nat.
Proof.
  induction l as [| y l IH]; cbn; [tauto|].
  intros [E | Hin] Hx.
  - subst. rewrite Hx. pose proof (filter_length_le keep l). lia.
  - specialize (IH Hin Hx). destruct (keep y); cbn; lia.
Qed.

Lemma upsertPr_cons (prs : list PrRecord) (next : PrRecord) :
  upsertPr prs next
  = next :: firstn 11 (filter (fun p => negb (pr_number p =? pr_number next)) prs).
Proof. reflexivity. Qed.

(** X7.  [upsertPr] puts the new record first, returns at most twelve
    records, holds the new record's number exactly once, and keeps the
    numbers pairwise distinct when they were. *)
Theorem upsert_keeps_the_list_in_shape (prs : list PrRecord) (next : PrRecord) :
  let tracked := upsertPr prs next in
  hd_error tracked = Some next
  /\ (List.length tracked <= 12)%nat
  /\ filter (fun p => pr_number p =? pr_number next) tracked = [next]
  /\ (NoDup (map pr_number prs) -> NoDup (map pr_number tracked)).
Proof.
  cbv zeta. rewrite upsertPr_cons.
  set (without := filter (fun p => negb (pr_number p =? pr_number next)) prs).
  split; [reflexivity|].
  split; [cbn [List.length]; pose proof (firstn_le_length 11 without); lia|].
  split.
  - cbn [filter]. rewrite Z.eqb_refl. f_equal.
    assert (Hnone : forall l, (forall p, In p l -> (pr_number p =? pr_number next) = false) ->
                              filter (fun p => pr_number p =? pr_number next) l = []).
    { induction l as [| y l IH]; cbn; intro Hall; [reflexivity|].
      rewrite (Hall y) by now left. apply IH. intros p Hin. apply Hall. now right. }
    apply Hnone. intros p Hin. apply firstn_incl_In in Hin.
    apply filter_In in Hin. destruct Hin as [_ Hne]. now apply negb_true_iff.
  - intro Hnd. cbn [map]. constructor.
    + intro Hin. apply (other_numbers (pr_number next) prs).
      apply in_map_iff in Hin. destruct Hin as [p [E Hin]].
      apply in_map_iff. exists p. split; [assumption | now apply (firstn_incl_In 11)].
    + apply NoDup_firstn_map. now apply NoDup_filter_map.
Qed.

Lemma upsert_keeps_the_list_in_shape_witness :
  NoDup (map pr_number
           (upsertPr [bare_record ci_pass None] (bare_record ci_fail None))).
Proof.
  destruct (upsert_keeps_the_list_in_shape
              [bare_record ci_pass None] (bare_record ci_fail None)) as [_ [_ [_ Hnd]]].
  apply Hnd. cbn. constructor; [intros [] | constructor].
Defined.

(** X8.  [upsertPr] evicts only from the end of the list, and nothing at
    all when fewer than twelve records are tracked or when the record
    replaces one of at most twelve: the others stay, in their order,
    behind the new one. *)
Theorem upsert_evicts_only_the_oldest (prs : list PrRecord) (next : PrRecord) :
  let without := filter (fun p => negb (pr_number p =? pr_number next)) prs in
  (exists evicted, next :: without = (upsertPr prs next ++ evicted)%list)
  /\ ((List.length prs < 12)%nat -> upsertPr prs next = next :: without)
  /\ (In (pr_number next) (map pr_number prs) -> (List.length prs <= 12)%nat ->
      upsertPr prs next = next :: without).
Proof.
  cbv zeta. unfold upsertPr, MAX_TRACKED_PRS. cbv zeta.
  set (without := filter (fun p => negb (pr_number p =? pr_number next)) prs).
  pose proof (filter_length_le (fun p => negb (pr_number p =? pr_number next)) prs) as Hle.
  fold without in Hle.
  split; [|split].
  - exists (skipn 12 (next :: without)). symmetry. apply firstn_skipn.
  - intro Hroom. apply firstn_all2. cbn [List.length]. lia.
  - intros Hin Hfull. apply firstn_all2. cbn [List.length].
    apply in_map_iff in Hin. destruct Hin as [p [E Hin]].
    assert (Hgone : negb (pr_number p =? pr_number next) = false)
      by (rewrite E, Z.eqb_refl; reflexivity).
    pose proof (filter_length_lt (fun p => negb (pr_number p =? pr_number next)) prs p
                  Hin Hgone) as Hlt.
    fold without in Hlt. lia.
Qed.

Lemma upsert_evicts_only_the_oldest_witness :
  upsertPr [bare_record ci_pass None] (bare_record ci_fail None)
  = [bare_record ci_fail None].
Proof.
  destruct (upsert_evicts_only_the_oldest
              [bare_record ci_pass None] (bare_record ci_fail None)) as [_ [_ Hupdate]].
  apply Hupdate; [now left | cbn; lia].
Defined.

(** X9.  Upserting the same record twice is the same as upserting it
    once. *)
Theorem upsert_is_idempotent (prs : list PrRecord) (next : PrRecord) :
  upsertPr (upsertPr prs next) next = upsertPr prs next.
Proof.
  rewrite (upsertPr_cons prs next).
  set (without := filter (fun p => negb (pr_number p =? pr_number next)) prs).
  rewrite upsertPr_cons. cbn [filter]. rewrite Z.eqb_refl. cbn [negb].
  rewrite filter_all_kept.
  - now rewrite firstn_firstn.
  - intros p Hin. apply firstn_incl_In in Hin. apply filter_In in Hin. tauto.
Qed.

(** X10.  [/pr-untrack <number>] leaves no record with that number and
    keeps every other record in its place; it reports the number as not
    tracked exactly when no record had it, and the list is then unchanged. *)
Theorem untrack_removes_exactly_that_number (prs : list PrRecord) (num : Z) :
  let kept := fst (untrackPr prs num) in
  let found := snd (untrackPr prs num) in
  ~ In num (map pr_number kept)
  /\ (forall p, pr_number p <> num -> (In p kept <-> In p prs))
  /\ kept = filter (fun p => negb (pr_number p =? num)) prs
  /\ (found = false <-> ~ In num (map pr_number prs))
  /\ (found = false -> kept = prs).
Proof.
  cbv zeta. unfold untrackPr. cbn [fst snd].
  set (keep := fun p => negb (pr_number p =? num)).
  assert (Hunchanged : ~ In num (map pr_number prs) -> filter keep prs = prs).
  { intro Hnot. apply filter_all_kept. intros p Hin. unfold keep.
    destruct (Z.eqb_spec (pr_number p) num) as [E | Hne]; [|reflexivity].
    exfalso. apply Hnot. apply in_map_iff. now exists p. }
  assert (Hfound : negb (Nat.eqb (List.length (filter keep prs)) (List.length prs)) = false
                   <-> ~ In num (map pr_number prs)).
  { rewrite negb_false_iff, Nat.eqb_eq. split.
    - intros Hlen Hin. apply in_map_iff in Hin. destruct Hin as [p [E Hin]].
      assert (Hgone : keep p = false) by (unfold keep; rewrite E, Z.eqb_refl; reflexivity).
      pose proof (filter_length_lt keep prs p Hin Hgone). lia.
    - intro Hnot. now rewrite Hunchanged. }
  split; [apply other_numbers|].
  split.
  { intros p Hne. rewrite filter_In. unfold keep.
    destruct (Z.eqb_spec (pr_number p) num); [contradiction | cbn; tauto]. }
  split; [reflexivity|].
  split; [exact Hfound|].
  intro Hf. apply Hunchanged. now apply Hfound.
Qed.

Lemma untrack_removes_exactly_that_number_witness :
  fst (untrackPr [bare_record ci_pass None] 7) = [bare_record ci_pass None].
Proof.
  destruct (untrack_removes_exactly_that_number [bare_record ci_pass None] 7)
    as [_ [_ [_ [_ Hsame]]]].
  apply Hsame. reflexivity.
Defined.

(** ** restoreState *)

Lemma restore_scan_skips (later earlier : list Entry) :
  (forall e, In e later -> is_state_entry e = false) ->
  restore_scan (later ++ earlier) = restore_scan earlier.
Proof.
  induction later as [| e later IH]; cbn; intro Hnone; [reflexivity|].
  rewrite (Hnone e) by now left. apply IH. intros x Hin. apply Hnone. now right.
Qed.

(** X11.  [restoreState] returns the list of the last entry that is a
    custom entry of type "pr-tracker-state" carrying a list, whatever
    comes before it and whatever other entries come after it; without such
    an entry it returns the empty list. *)
Theorem restore_reads_the_last_state_entry
        (before after : list Entry) (e : Entry) (prs : list PrRecord) :
  (is_state_entry e = true -> entry_prs e = Some prs ->
   (forall x, In x after -> is_state_entry x = false) ->
   restoreState (before ++ e :: after) = prs)
  /\ ((forall x, In x after -> is_state_entry x = false) -> restoreState after = []).
Proof.
  unfold restoreState. split.
  - intros He Hprs Hafter.
    rewrite rev_app_distr. cbn [rev]. rewrite <- !app_assoc.
    rewrite restore_scan_skips.
    + cbn. now rewrite He, Hprs.
    + intros x Hin. apply Hafter. now apply in_rev.
  - intro Hnone. rewrite <- (app_nil_r (rev after)).
    rewrite restore_scan_skips; [reflexivity|].
    intros x Hin. apply Hnone. now apply in_rev.
Qed.

Lemma restore_reads_the_last_state_entry_witness :
  let state prs :=
    {| entry_type := "custom"; entry_customType := Some STATE_ENTRY;
       entry_data := Some {| state_prs := Some prs |} |} in
  let message :=
    {| entry_type := "message"; entry_customType := None; entry_data := None |} in
  restoreState [state [bare_record ci_pass None]; message; state []; message] = []
  /\ restoreState [message; message] = [].
Proof.
  intros state message. split.
  - destruct (restore_reads_the_last_state_entry
                [state [bare_record ci_pass None]; message] [message] (state []) [])
      as [Hlast _].
    apply Hlast; [reflexivity | reflexivity |].
    intros x [E | []]. rewrite <- E. reflexivity.
  - destruct (restore_reads_the_last_state_entry [] [message; message] message [])
      as [_ Hnone].
    apply Hnone.
    intros x [E | [E | []]]; rewrite <- E; reflexivity.
Defined.

(** ** shortTitle *)

Lemma substring_prefix_length (n : nat) (s : string) :
  String.length (substring 0 n s) = Nat.min n (String.length s).
Proof.
  revert s. induction n as [| n IH]; intros [| c s]; cbn; try reflexivity.
  now rewrite IH.
Qed.

(** X12.  With a limit of three or more (the callers use 40), a title no
    longer than the limit is shown as it is, and a longer one is cut to
    its first [max - 3] characters followed by three dots, which makes
    exactly [max]; so the result never exceeds the limit. *)
Theorem short_title_fits (title : string) (max : Z) :
  3 <= max ->
  Z.of_nat (String.length (shortTitle title max)) <= max
  /\ (Z.of_nat (String.length title) <= max -> shortTitle title max = title)
  /\ (max < Z.of_nat (String.length title) ->
      shortTitle title max = substring 0 (Z.to_nat (max - 3)) title ++ "..."
      /\ Z.of_nat (String.length (shortTitle title max)) = max).
Proof.
  intro Hmax. unfold shortTitle, slice_to.
  destruct (Z.leb_spec (Z.of_nat (String.length title)) max) as [Hshort | Hlong].
  - split; [assumption|]. split; [reflexivity | lia].
  - destruct (Z.ltb_spec (max - 3) 0); [lia|].
    rewrite Z.min_l by lia.
    assert (Hlen : Z.of_nat (String.length
                               (substring 0 (Z.to_nat (max - 3)) title ++ "...")) = max).
    { rewrite string_app_length, substring_prefix_length. cbn [String.length]. lia. }
    split; [lia|]. split; [lia|]. intros _. split; [reflexivity | exact Hlen].
Qed.

Lemma short_title_fits_witness :
  shortTitle "Refactor the renderer so that the bar is computed once" 40
  = "Refactor the renderer so that the bar..."
  /\ shortTitle "Fix typo" 40 = "Fix typo".
Proof.
  destruct (short_title_fits "Refactor the renderer so that the bar is computed once" 40)
    as [_ [_ Hcut]]; [lia|].
  destruct (short_title_fits "Fix typo" 40) as [_ [Hsame _]]; [lia|].
  split.
  - destruct Hcut as [Htext _]; [cbn; lia|]. exact Htext.
  - apply Hsame. cbn. lia.
Defined.

(** Below three the cut counts from the end of the title and the result
    is longer than the limit. *)
Example short_title_below_three :
  shortTitle "abcdef" 2 = "abcde..." /\ shortTitle "abcdef" 3 = "...".
Proof. split; reflexivity. Qed.

(** ** renderWidget *)

(** X13.  Without a UI or without tracked records the widget and the
    status are cleared.  Otherwise the widget is a header with the number
    of records followed by one line per record, the first twelve at most,
    in the order of the list; after an upsert that is every tracked
    record, the new one first. *)
Theorem widget_lists_the_tracked_records {T : Type} `{Arith T}
        (fg : string -> string -> string) (prs : list PrRecord) (next : PrRecord) :
  let header (l : list PrRecord) :=
    fg "accent" ("PR Tracker (" ++ count_nat (List.length l) ++ ")") in
  (forall hasUI, hasUI = false \/ prs = [] ->
                 renderWidget fg hasUI prs = {| widget_lines := None; status_line := None |})
  /\ (prs <> [] ->
      widget_lines (renderWidget fg true prs)
      = Some (header prs :: map (widget_line fg) (firstn 12 prs)))
  /\ widget_lines (renderWidget fg true (upsertPr prs next))
     = Some (header (upsertPr prs next) :: map (widget_line fg) (upsertPr prs next)).
Proof.
  cbv zeta. split; [|split].
  - intros hasUI [-> | ->]; [reflexivity|]. unfold renderWidget. cbn.
    now rewrite orb_true_r.
  - intro Hne. unfold renderWidget. destruct prs as [| p rest]; [now contradiction Hne|].
    reflexivity.
  - unfold renderWidget. rewrite upsertPr_cons.
    cbn [negb orb List.length Nat.eqb widget_lines]. do 3 f_equal.
    apply firstn_all2. unfold MAX_TRACKED_PRS. cbn [List.length].
    pose proof (firstn_le_length 11
                  (filter (fun p => negb (pr_number p =? pr_number next)) prs)).
    lia.
Qed.

Lemma widget_lists_the_tracked_records_witness :
  widget_lines (renderWidget (T := float) plain true
                  [bare_record ci_fail (Some (tally 100 50 1 49))])
  = Some ["PR Tracker (1)"; "#1   CI:[====!~~] 50/100 +1 fail (49 waiting) RV:? MG:?"]
  /\ renderWidget (T := float) plain false [bare_record ci_pass None]
     = {| widget_lines := None; status_line := None |}.
Proof.
  destruct (widget_lists_the_tracked_records (T := float) plain
              [bare_record ci_fail (Some (tally 100 50 1 49))] (bare_record ci_pass None))
    as [_ [Hlines _]].
  destruct (widget_lists_the_tracked_records (T := float) plain
              [bare_record ci_pass None] (bare_record ci_pass None))
    as [Hclear _].
  split.
  - rewrite Hlines by discriminate. vm_compute. reflexivity.
  - apply Hclear. now left.
Defined.

(* ===================================================================== *)
(** * Ages and durations *)
(* ===================================================================== *)

(** X14.  [formatAge] shows the age rounded down in the largest of the
    units second, minute, hour, day that fits: whole seconds below a
    minute, whole minutes below an hour, whole hours below a day, whole
    days from then on.  A negative age counts as zero. *)
Theorem format_age_rounds_down (ms : Z) :
  let age := Z.max 0 ms in
  (age < 60000 -> formatAge ms = number_to_string (age / 1000) ++ "s")
  /\ (60000 <= age < 3600000 -> formatAge ms = number_to_string (age / 60000) ++ "m")
  /\ (3600000 <= age < 86400000 ->
      formatAge ms = number_to_string (age / 3600000) ++ "h")
  /\ (86400000 <= age -> formatAge ms = number_to_string (age / 86400000) ++ "d").
Proof.
  cbv zeta. unfold formatAge. cbv zeta.
  assert (Hsec : Z.max 0 (ms / 1000) = Z.max 0 ms / 1000).
  { destruct (Z_lt_le_dec ms 0) as [Hneg | Hpos].
    - rewrite (Z.max_l 0 ms) by lia. cbn.
      apply Z.max_l. apply Z.lt_le_incl, Z.div_lt_upper_bound; lia.
    - rewrite (Z.max_r 0 ms) by lia. apply Z.max_r. apply Z.div_pos; lia. }
  rewrite Hsec. set (age := Z.max 0 ms).
  assert (Hage : 0 <= age) by (unfold age; lia).
  assert (Hmin : age / 1000 / 60 = age / 60000) by (rewrite Z.div_div by lia; reflexivity).
  assert (Hhr : age / 1000 / 60 / 60 = age / 3600000)
    by (rewrite !Z.div_div by lia; reflexivity).
  assert (Hday : age / 1000 / 60 / 60 / 24 = age / 86400000)
    by (rewrite !Z.div_div by lia; reflexivity).
  assert (Hs : age / 1000 < 60 <-> age < 60000).
  { split; intro Hlt.
    - apply Z.nle_gt. intro Hge. apply (Z.div_le_mono _ _ 1000) in Hge; [|lia].
      change (60000 / 1000) with 60 in Hge. lia.
    - apply Z.div_lt_upper_bound; lia. }
  assert (Hm : age / 60000 < 60 <-> age < 3600000).
  { split; intro Hlt.
    - apply Z.nle_gt. intro Hge. apply (Z.div_le_mono _ _ 60000) in Hge; [|lia].
      change (3600000 / 60000) with 60 in Hge. lia.
    - apply Z.div_lt_upper_bound; lia. }
  assert (Hh : age / 3600000 < 24 <-> age < 86400000).
  { split; intro Hlt.
    - apply Z.nle_gt. intro Hge. apply (Z.div_le_mono _ _ 3600000) in Hge; [|lia].
      change (86400000 / 3600000) with 24 in Hge. lia.
    - apply Z.div_lt_upper_bound; lia. }
  rewrite Hday, Hhr, Hmin.
  destruct (Z.ltb_spec (age / 1000) 60) as [H1 | H1];
    [|destruct (Z.ltb_spec (age / 60000) 60) as [H2 | H2];
      [|destruct (Z.ltb_spec (age / 3600000) 24) as [H3 | H3]]];
    repeat split; intros; try reflexivity; exfalso; lia.
Qed.

Lemma format_age_rounds_down_witness :
  formatAge 725000 = "12m" /\ formatAge (-5) = "0s" /\ formatAge 90000000 = "1d".
Proof.
  split; [|split].
  - destruct (format_age_rounds_down 725000) as [_ [Hm _]].
    rewrite Hm by lia. reflexivity.
  - destruct (format_age_rounds_down (-5)) as [Hs _].
    rewrite Hs by lia. reflexivity.
  - destruct (format_age_rounds_down 90000000) as [_ [_ [_ Hd]]].
    rewrite Hd by lia. reflexivity.
Defined.

(** ** parseDurationToMs *)




Lemma of_uint_nonneg (d : Decimal.uint) : 0 <= Z.of_uint d.
Proof. unfold Z.of_uint. apply N2Z.is_nonneg. Qed.




(** What the pattern refuses. *)
Example refused_durations :
  parseDurationToMs (Some "0m") = None
  /\ parseDurationToMs (Some "90") = None
  /\ parseDurationToMs (Some "1.5h") = None
  /\ parseDurationToMs (Some "-2d") = None
  /\ parseDurationToMs (Some "2 h") = None
  /\ parseDurationToMs (Some "h") = None.
Proof. repeat split. Qed.

(** ** Writing a duration and reading it back *)









(* ===================================================================== *)
(** * What a prune selects *)
(* ===================================================================== *)

Lemma prune_limit_range (limit : option Q) : 1 <= prune_limit limit <= 200.
Proof. unfold prune_limit. lia. Qed.

(** X17.  Whatever dates the sessions carry: a prune selects only listed
    sessions, each with a creation date that can be read and an age of at
    least the threshold; and unless [exclude_active] is given as false it
    never selects the active session. *)
Theorem prune_spares_the_active_session
        (getTime : string -> option Z) (now olderThanMs : Z)
        (exclude_active : option bool) (limit : option Q)
        (activeBrowserId : option string) (all : list Browser) (b : Browser) :
  let plan := prune_plan getTime now olderThanMs exclude_active limit activeBrowserId all in
  In b (plan_candidates plan) ->
  In b all
  /\ (exists created, created_at b <> None
                      /\ getTime (orEmpty (created_at b)) = Some created
                      /\ olderThanMs <= now - created)
  /\ (exclude_active <> Some false -> forall id, activeBrowserId = Some id -> id <> "" ->
      session_id b <> id).
Proof.
  cbv zeta. unfold prune_plan. cbn [plan_candidates]. intro Hin.
  apply firstn_incl_In in Hin. apply filter_In in Hin. destruct Hin as [Hall Hmatch].
  split; [assumption|].
  unfold prune_match in Hmatch.
  destruct (_ && _ && _) eqn:Hactive; [discriminate|].
  destruct (truthy_opt (created_at b)) eqn:Hcreated; [|discriminate].
  cbn [negb] in Hmatch.
  destruct (getTime (orEmpty (created_at b))) as [created |] eqn:Htime; [|discriminate].
  split.
  - exists created. split; [|split; [reflexivity | now apply Z.leb_le]].
    intro Hnone. rewrite Hnone in Hcreated. discriminate.
  - intros Hexclude id -> Hid Hsame.
    assert (Hex : match exclude_active with Some e => e | None => true end = true).
    { destruct exclude_active as [[|] |]; try reflexivity. now contradiction Hexclude. }
    rewrite Hex in Hactive. unfold truthy_opt in Hactive. cbn [orEmpty] in Hactive.
    apply truthy_true_iff in Hid. rewrite Hid, Hsame, String.eqb_refl in Hactive.
    discriminate.
Qed.

Lemma prune_spares_the_active_session_witness :
  let old := {| session_id := "a"; created_at := Some "then" |} in
  let plan := prune_plan (fun _ => Some 0) 100 50 None None (Some "b") [old] in
  In old [old] /\ session_id old <> "b".
Proof.
  intros old plan.
  destruct (prune_spares_the_active_session (fun _ => Some 0) 100 50 None None (Some "b")
              [old] old) as [Hlisted [_ Hspared]].
  - left. reflexivity.
  - split; [exact Hlisted|]. apply Hspared; [discriminate | reflexivity | discriminate].
Defined.

(** X18.  A prune selects at most [limit] sessions, and [limit] is between
    1 and 200 whatever is asked for (20 when nothing is); the selected
    sessions are the first matches in listing order, and the selected and
    the skipped ones together are all the matches. *)
Theorem prune_respects_the_limit
        (getTime : string -> option Z) (now olderThanMs : Z)
        (exclude_active : option bool) (limit : option Q)
        (activeBrowserId : option string) (all : list Browser) :
  let plan := prune_plan getTime now olderThanMs exclude_active limit activeBrowserId all in
  1 <= prune_limit limit <= 200
  /\ prune_limit None = 20
  /\ Z.of_nat (List.length (plan_candidates plan)) <= prune_limit limit
  /\ Z.of_nat (List.length (plan_candidates plan)) + plan_skipped plan
     = Z.of_nat (plan_matched plan)
  /\ 0 <= plan_skipped plan
  /\ exists skipped,
       filter (prune_match getTime now olderThanMs
                 (match exclude_active with Some e => e | None => true end)
                 activeBrowserId) all
       = (plan_candidates plan ++ skipped)%list
       /\ Z.of_nat (List.length skipped) = plan_skipped plan.
Proof.
  cbv zeta. unfold prune_plan. cbn [plan_candidates plan_skipped plan_matched].
  pose proof (prune_limit_range limit) as Hrange.
  set (matches := filter _ all).
  set (n := Z.to_nat (prune_limit limit)).
  pose proof (firstn_le_length n matches) as Hle.
  pose proof (firstn_skipn n matches) as Hsplit.
  pose proof (f_equal (@List.length _) Hsplit) as Hlen.
  rewrite length_app in Hlen.
  split; [assumption|]. split; [reflexivity|].
  split; [unfold n in *; lia|].
  assert (Hfirst : (List.length (firstn n matches) <= List.length matches)%nat) by lia.
  split; [lia|]. split; [lia|].
  exists (skipn n matches). split; [now symmetry | lia].
Qed.

(* ===================================================================== *)
(** * The status line of the Kernel extension *)
(* ===================================================================== *)

(** X19.  With an active session, the status line after [markOk] is the
    normal (accent) one, whatever was recorded before; after [markBusy]
    with an operation name it is the busy (warning) one, which comes before
    everything else; after [markError] it is the stale (error) one provided
    no success is recorded or the last success is earlier than the error;
    an error in the very millisecond of the last success is not shown as
    stale.  Without an active session the line is the dimmed "none" one. *)
Theorem status_line_after_a_call
        (fg : string -> string -> string) (getTime : string -> option Z)
        (st : KernelState) (id op : string) (now later : Z) :
  activeBrowserId st = Some id -> id <> "" -> now <> 0 ->
  (exists text, updateWidget fg getTime true later (markOk now st) = Some (fg "accent" text))
  /\ (op <> "" ->
      exists text,
        updateWidget fg getTime true later (markBusy op now st) = Some (fg "warning" text))
  /\ (lastOkMs st = None \/ (exists ok, lastOkMs st = Some ok /\ ok < now) ->
      exists text,
        updateWidget fg getTime true later (markError now st) = Some (fg "error" text))
  /\ (lastOkMs st = Some now ->
      exists text,
        updateWidget fg getTime true later (markError now st) = Some (fg "accent" text))
  /\ (forall idle, truthy_opt (activeBrowserId idle) = false ->
        updateWidget fg getTime true later idle
        = Some (fg "dim" "Kernel: none · run /kernel or kernel_browser create"))
  /\ (forall any, updateWidget fg getTime false later any = None).
Proof.
  intros Hid Hne Hnow.
  assert (Hactive : forall s, activeBrowserId s = Some id ->
                              truthy_opt (activeBrowserId s) = true).
  { intros s ->. unfold truthy_opt. cbn. now apply truthy_true_iff. }
  assert (Hnz : (now =? 0) = false) by now apply Z.eqb_neq.
  split; [|split; [|split; [|split; [|split]]]].
  - unfold updateWidget. cbn [negb]. rewrite (Hactive (markOk now st)) by exact Hid.
    cbn [negb markOk busyOp busySinceMs lastErrorMs truthy_opt orEmpty truthy truthy_num
         andb]. eexists. reflexivity.
  - intro Hop. unfold updateWidget. cbn [negb].
    rewrite (Hactive (markBusy op now st)) by exact Hid.
    cbn [negb markBusy busyOp busySinceMs truthy_num]. unfold truthy_opt. cbn [orEmpty].
    apply truthy_true_iff in Hop. rewrite Hop, Hnz. cbn [negb andb].
    eexists. reflexivity.
  - intro Hok. unfold updateWidget. cbn [negb].
    rewrite (Hactive (markError now st)) by exact Hid.
    cbn [negb markError busyOp busySinceMs lastErrorMs lastOkMs truthy_opt orEmpty truthy
         truthy_num andb num_or_zero].
    rewrite Hnz. cbn [negb andb].
    assert (Hstale : negb (truthy_num (lastOkMs st))
                     || (num_or_zero (lastOkMs st) <? now) = true).
    { destruct Hok as [-> | [ok [-> Hlt]]]; [reflexivity|].
      cbn. apply orb_true_iff. right. now apply Z.ltb_lt. }
    rewrite Hstale. eexists. reflexivity.
  - intro Hsame. unfold updateWidget. cbn [negb].
    rewrite (Hactive (markError now st)) by exact Hid.
    cbn [negb markError busyOp busySinceMs lastErrorMs lastOkMs truthy_opt orEmpty truthy
         truthy_num andb num_or_zero].
    rewrite Hsame. cbn [truthy_num num_or_zero]. rewrite Hnz, Z.ltb_irrefl.
    cbn [negb andb orb]. eexists. reflexivity.
  - intros idle Hidle. unfold updateWidget. cbn [negb]. now rewrite Hidle.
  - intro any. reflexivity.
Qed.

Lemma status_line_after_a_call_witness :
  let st :=
    {| activeBrowserId := Some "7d1f3b9a2c1d4e5f"; activeCreatedAt := None;
       activeTimeoutSeconds := Some 300; activeProfileName := Some "work";
       activeHostHint := Some "github.com"; busyOp := None; busySinceMs := None;
       lastOkMs := None; lastErrorMs := None |} in
  (exists text,
      updateWidget plain (fun _ => None) true 9000 (markBusy "playwright" 6000 st)
      = Some text)
  /\ updateWidget plain (fun _ => None) true 9000 (markBusy "playwright" 6000 st)
     = Some "Kernel: work (7d1f3b9a2c1d…) · busy (playwright 3s)".
Proof.
  intro st.
  destruct (status_line_after_a_call plain (fun _ => None) st "7d1f3b9a2c1d4e5f"
              "playwright" 6000 9000) as [_ [Hbusy _]];
    [reflexivity | discriminate | lia |].
  split; [apply Hbusy; discriminate | reflexivity].
Defined.

(* ===================================================================== *)
(** * The largest-remainder step *)
(* ===================================================================== *)

(** X20.  After the leftover loop every category holds the floor of its
    share or one slot more, whatever the arithmetic of the shares. *)
Theorem leftover_adds_at_most_one {T : Type} `{Arith T}
        (progress : CiProgress) (width : Z) (k : Key) :
  slot k (floors progress width) <= slot k (distributed progress width)
  /\ slot k (distributed progress width) <= slot k (floors progress width) + 1.
Proof.
  unfold distributed. cbv zeta. rewrite fractions_order.
  repeat match goal with
    | |- context [match by_frac_desc ?x ?y with _ => _ end] =>
        destruct (by_frac_desc x y)
    end;
    cbn [distribute key fraction]; split_tests; destruct k; slot_arith.
Qed.


